(** * SecureChat: the browser client (src/app.js) and the message router

    The first part embeds the client logic of [src/app.js]: the [state]
    object, the WebSocket life cycle, the optimistic send, the rendering of
    messages and the REST helper [apiCall].  JavaScript values are embedded
    as a small JSON-like type, exceptions as an error monad over the client
    state, and the browser (DOM, sockets, timers, fetch) as explicit fields
    of the state together with an ordered trace of the effects performed.

    The second part is the message router of the server.  Its code
    ([server.py]) is not among the sources, only the client that talks to
    it and the configuration constants are, so the router is modelled from
    the specification and marked as such. *)

From Stdlib Require Import String Ascii ZArith List Bool Lia DecimalString.
From stdpp Require Import base option list strings gmap.

Set Warnings "-register-all".
Local Open Scope string_scope.
Local Open Scope list_scope.

(** ** JavaScript values

    The values that flow through [app.js] are what [JSON.parse] and
    [res.json()] produce, plus [undefined] for a missing property.
    Characters of a [string] stand for UTF-16 code units 0..255.  Numbers
    are the integers JSON carries as identifiers: fractions and magnitudes
    from 1e21 on, which JavaScript prints with an exponent, are outside the
    embedding. *)

Inductive json : Type :=
| JUndefined
| JNull
| JBool (b : bool)
| JNum (n : Z)
| JStr (s : string)
| JArr (items : list json)
| JObj (fields : list (string * json)).

(** Exceptions.  [Error m] is [new Error(m)]; the others are raised by the
    engine or the browser: a property read on [null]/[undefined] or a call
    of a non-function ([TypeError]), a body that is not JSON
    ([SyntaxError]), a [fetch] that could not complete ([NetworkError]). *)
Inductive exn : Type :=
| Error (message : string)
| TypeError
| SyntaxError
| NetworkError.

Inductive result (A : Type) : Type :=
| Ok (a : A)
| Throw (e : exn).
Arguments Ok {A} a.
Arguments Throw {A} e.

(** ToBoolean: the test of [if (x)], [!x], [a || b], [a && b]. *)
Definition truthy (v : json) : bool :=
  match v with
  | JUndefined | JNull => false
  | JBool b => b
  | JNum n => negb (Z.eqb n 0)
  | JStr EmptyString => false
  | JStr (String _ _) => true
  | JArr _ | JObj _ => true
  end.

(** [a || b] *)
Definition js_or (a b : json) : json := if truthy a then a else b.

(** [a === b] on what [app.js] compares: identifiers and type tags, which
    are primitives.  Arrays and objects compare by reference, and two
    values parsed from different frames or responses never share one. *)
Definition strict_eq (a b : json) : bool :=
  match a, b with
  | JUndefined, JUndefined => true
  | JNull, JNull => true
  | JBool x, JBool y => Bool.eqb x y
  | JNum x, JNum y => Z.eqb x y
  | JStr x, JStr y => String.eqb x y
  | _, _ => false
  end.

Fixpoint assoc (k : string) (fields : list (string * json)) : json :=
  match fields with
  | [] => JUndefined
  | (k', v) :: rest => if String.eqb k k' then v else assoc k rest
  end.

(** [v.k] for a property name [k] that is neither an index nor [length]:
    a [TypeError] on [null] and [undefined], [undefined] on the other
    primitives and on arrays.  Parsed objects have distinct keys. *)
Definition get (k : string) (v : json) : result json :=
  match v with
  | JUndefined | JNull => Throw TypeError
  | JObj fields => Ok (assoc k fields)
  | _ => Ok JUndefined
  end.

(** [v[0]] *)
Definition get0 (v : json) : result json :=
  match v with
  | JUndefined | JNull => Throw TypeError
  | JStr (String c _) => Ok (JStr (String c EmptyString))
  | JArr (x :: _) => Ok x
  | JObj fields => Ok (assoc "0" fields)
  | _ => Ok JUndefined
  end.

Definition string_of_Z (n : Z) : string := NilZero.string_of_int (Z.to_int n).

(** ToString, as applied by template literals, [textContent] and
    [new Error(v)]. *)
Fixpoint toString (v : json) : string :=
  match v with
  | JUndefined => "undefined"
  | JNull => "null"
  | JBool true => "true"
  | JBool false => "false"
  | JNum n => string_of_Z n
  | JStr s => s
  | JArr items =>
      String.concat ","
        (List.map (fun x => match x with
                            | JUndefined | JNull => ""
                            | _ => toString x
                            end) items)
  | JObj _ => "[object Object]"
  end.

(** ** Strings *)

(** White space and line terminators among the code units 0..255, the
    characters [String.prototype.trim] strips. *)
Definition is_space (c : ascii) : bool :=
  let n := nat_of_ascii c in
  (Nat.leb 9 n && Nat.leb n 13) || Nat.eqb n 32 || Nat.eqb n 160.

Fixpoint trimStart (s : string) : string :=
  match s with
  | EmptyString => EmptyString
  | String c rest => if is_space c then trimStart rest else s
  end.

(** [trimEnd]: drop the trailing white space, keeping inner white space. *)
Fixpoint trimEnd (s : string) : string :=
  match s with
  | EmptyString => EmptyString
  | String c rest =>
      match trimEnd rest with
      | EmptyString => if is_space c then EmptyString else String c EmptyString
      | r => String c r
      end
  end.

Definition trim (s : string) : string := trimEnd (trimStart s).

Fixpoint count_char (c : ascii) (s : string) : nat :=
  match s with
  | EmptyString => 0
  | String c' rest => (if Ascii.eqb c c' then 1 else 0) + count_char c rest
  end.

Definition dquote : string := String "034" EmptyString.

(** ** escapeHtml

    [div.textContent = text] gives the detached [div] one Text child (none
    for the empty string) and [div.innerHTML] serialises it.  The
    serialisation of a Text node is the browser's, fixed by the HTML
    standard (escaping a string outside attribute mode): the ampersand,
    the no-break space and the two angle brackets become entities. *)
Definition escape_char (c : ascii) : string :=
  if Ascii.eqb c "&" then "&amp;"
  else if Ascii.eqb c "160" then "&nbsp;"
  else if Ascii.eqb c "<" then "&lt;"
  else if Ascii.eqb c ">" then "&gt;"
  else String c EmptyString.

Fixpoint serialize_text (s : string) : string :=
  match s with
  | EmptyString => EmptyString
  | String c rest => escape_char c +:+ serialize_text rest
  end.

Definition escapeHtml (text : json) : string :=
  if negb (truthy text) then "" else serialize_text (toString text).

(** ** The client state

    [state] of [app.js] (the fields the modelled handlers use), followed by
    the parts of the browser the handlers act on: [localStorage], the
    WebSocket objects ever constructed (a socket is referred to by its index,
    so that [state.socket] and the handlers installed on a socket alias the
    same object), the pending timeouts, the ordered trace of the effects
    performed, and the DOM nodes written to. *)

Inductive ReadyState : Type := CONNECTING | OPEN | CLOSING | CLOSED.

(** [onopen] and [onmessage] are installed once and never removed; only
    [onclose] is ever set to [null], so it is the one handler recorded.
    [ws_token] is the token the URL was built from, before
    [encodeURIComponent]. *)
Record WebSocket : Type := mkWebSocket {
  readyState : ReadyState;
  onclose : bool;
  ws_token : string
}.

Record ActiveChat : Type := mkActiveChat { chat_id : json; chat_type : json }.

Inductive callback : Type :=
| CbConnectWebSocket
| CbRemoveToast (id : nat)
| CbNavigate (viewId : string).

Inductive RequestBody : Type :=
| JsonBody (v : json)
| FormBody (v : json).

Record Request : Type := mkRequest {
  url : string;
  method : string;
  headers : list (string * string);
  body : option RequestBody
}.

(** What [fetch] followed by [res.json()] can come to: the request fails,
    or a response arrives with its [ok] flag and a body that parses as JSON
    or does not. *)
Inductive FetchOutcome : Type :=
| FetchFailed
| Response (ok : bool) (data : option json).

(** [WsSend] carries the object handed to [JSON.stringify]. *)
Inductive effect : Type :=
| NewWebSocket (sid : nat) (tok : string)
| WsSend (sid : nat) (payload : json)
| WsClose (sid : nat)
| Fetch (req : Request)
| SetTimeout (cb : callback) (delay : Z)
| ConsoleLog (s : string)
| ConsoleError (s : string).

Record MessageDiv : Type := mkMessageDiv { className : string; innerHTML : string }.

Record ChatItem : Type := mkChatItem { li_active : bool; li_chat : json }.

(** The text of a toast: a string, or the [message] of a caught exception
    (for the engine's own exceptions the wording is the browser's). *)
Inductive toast_text : Type :=
| Text (s : string)
| MessageOf (e : exn).

Record Toast : Type := mkToast { toast_id : nat; toast_type : string; toast_message : toast_text }.

Record State : Type := mkState {
  (* state *)
  token : json;
  user : json;
  privateChats : json;
  activeChat : option ActiveChat;
  socket : option nat;
  (* localStorage: the items 'token' and 'user' *)
  ls_token : option string;
  ls_user : option json;
  (* the browser *)
  sockets : list WebSocket;
  timers : list (Z * callback);
  trace : list effect;
  (* the document: the view shown, .status-indicator, #active-chat-title,
     #current-user-name, #message-input, #chat-container shown,
     #messages-area, #private-chat-list, #toast-container *)
  view : string;
  status : string;
  title : string;
  user_name : string;
  message_input : string;
  chat_shown : bool;
  messages_area : list MessageDiv;
  chat_list : list ChatItem;
  toasts : list Toast;
  next_toast : nat
}.

Definition set_token (v : json) (st : State) : State :=
  mkState v (user st) (privateChats st) (activeChat st) (socket st) (ls_token st)
    (ls_user st) (sockets st) (timers st) (trace st) (view st) (status st) (title st)
    (user_name st) (message_input st) (chat_shown st) (messages_area st) (chat_list st)
    (toasts st) (next_toast st).

Definition set_user (v : json) (st : State) : State :=
  mkState (token st) v (privateChats st) (activeChat st) (socket st) (ls_token st)
    (ls_user st) (sockets st) (timers st) (trace st) (view st) (status st) (title st)
    (user_name st) (message_input st) (chat_shown st) (messages_area st) (chat_list st)
    (toasts st) (next_toast st).

Definition set_privateChats (v : json) (st : State) : State :=
  mkState (token st) (user st) v (activeChat st) (socket st) (ls_token st) (ls_user st)
    (sockets st) (timers st) (trace st) (view st) (status st) (title st) (user_name st)
    (message_input st) (chat_shown st) (messages_area st) (chat_list st) (toasts st)
    (next_toast st).

Definition set_activeChat (v : option ActiveChat) (st : State) : State :=
  mkState (token st) (user st) (privateChats st) v (socket st) (ls_token st) (ls_user
    st) (sockets st) (timers st) (trace st) (view st) (status st) (title st) (user_name
    st) (message_input st) (chat_shown st) (messages_area st) (chat_list st) (toasts st)
    (next_toast st).

Definition set_socket (v : option nat) (st : State) : State :=
  mkState (token st) (user st) (privateChats st) (activeChat st) v (ls_token st)
    (ls_user st) (sockets st) (timers st) (trace st) (view st) (status st) (title st)
    (user_name st) (message_input st) (chat_shown st) (messages_area st) (chat_list st)
    (toasts st) (next_toast st).

Definition set_ls_token (v : option string) (st : State) : State :=
  mkState (token st) (user st) (privateChats st) (activeChat st) (socket st) v (ls_user
    st) (sockets st) (timers st) (trace st) (view st) (status st) (title st) (user_name
    st) (message_input st) (chat_shown st) (messages_area st) (chat_list st) (toasts st)
    (next_toast st).

Definition set_ls_user (v : option json) (st : State) : State :=
  mkState (token st) (user st) (privateChats st) (activeChat st) (socket st) (ls_token
    st) v (sockets st) (timers st) (trace st) (view st) (status st) (title st)
    (user_name st) (message_input st) (chat_shown st) (messages_area st) (chat_list st)
    (toasts st) (next_toast st).

Definition set_sockets (v : list WebSocket) (st : State) : State :=
  mkState (token st) (user st) (privateChats st) (activeChat st) (socket st) (ls_token
    st) (ls_user st) v (timers st) (trace st) (view st) (status st) (title st)
    (user_name st) (message_input st) (chat_shown st) (messages_area st) (chat_list st)
    (toasts st) (next_toast st).

Definition set_timers (v : list (Z * callback)) (st : State) : State :=
  mkState (token st) (user st) (privateChats st) (activeChat st) (socket st) (ls_token
    st) (ls_user st) (sockets st) v (trace st) (view st) (status st) (title st)
    (user_name st) (message_input st) (chat_shown st) (messages_area st) (chat_list st)
    (toasts st) (next_toast st).

Definition set_trace (v : list effect) (st : State) : State :=
  mkState (token st) (user st) (privateChats st) (activeChat st) (socket st) (ls_token
    st) (ls_user st) (sockets st) (timers st) v (view st) (status st) (title st)
    (user_name st) (message_input st) (chat_shown st) (messages_area st) (chat_list st)
    (toasts st) (next_toast st).

Definition set_view (v : string) (st : State) : State :=
  mkState (token st) (user st) (privateChats st) (activeChat st) (socket st) (ls_token
    st) (ls_user st) (sockets st) (timers st) (trace st) v (status st) (title st)
    (user_name st) (message_input st) (chat_shown st) (messages_area st) (chat_list st)
    (toasts st) (next_toast st).

Definition set_status (v : string) (st : State) : State :=
  mkState (token st) (user st) (privateChats st) (activeChat st) (socket st) (ls_token
    st) (ls_user st) (sockets st) (timers st) (trace st) (view st) v (title st)
    (user_name st) (message_input st) (chat_shown st) (messages_area st) (chat_list st)
    (toasts st) (next_toast st).

Definition set_title (v : string) (st : State) : State :=
  mkState (token st) (user st) (privateChats st) (activeChat st) (socket st) (ls_token
    st) (ls_user st) (sockets st) (timers st) (trace st) (view st) (status st) v
    (user_name st) (message_input st) (chat_shown st) (messages_area st) (chat_list st)
    (toasts st) (next_toast st).

Definition set_user_name (v : string) (st : State) : State :=
  mkState (token st) (user st) (privateChats st) (activeChat st) (socket st) (ls_token
    st) (ls_user st) (sockets st) (timers st) (trace st) (view st) (status st) (title
    st) v (message_input st) (chat_shown st) (messages_area st) (chat_list st) (toasts
    st) (next_toast st).

Definition set_message_input (v : string) (st : State) : State :=
  mkState (token st) (user st) (privateChats st) (activeChat st) (socket st) (ls_token
    st) (ls_user st) (sockets st) (timers st) (trace st) (view st) (status st) (title
    st) (user_name st) v (chat_shown st) (messages_area st) (chat_list st) (toasts st)
    (next_toast st).

Definition set_chat_shown (v : bool) (st : State) : State :=
  mkState (token st) (user st) (privateChats st) (activeChat st) (socket st) (ls_token
    st) (ls_user st) (sockets st) (timers st) (trace st) (view st) (status st) (title
    st) (user_name st) (message_input st) v (messages_area st) (chat_list st) (toasts
    st) (next_toast st).

Definition set_messages_area (v : list MessageDiv) (st : State) : State :=
  mkState (token st) (user st) (privateChats st) (activeChat st) (socket st) (ls_token
    st) (ls_user st) (sockets st) (timers st) (trace st) (view st) (status st) (title
    st) (user_name st) (message_input st) (chat_shown st) v (chat_list st) (toasts st)
    (next_toast st).

Definition set_chat_list (v : list ChatItem) (st : State) : State :=
  mkState (token st) (user st) (privateChats st) (activeChat st) (socket st) (ls_token
    st) (ls_user st) (sockets st) (timers st) (trace st) (view st) (status st) (title
    st) (user_name st) (message_input st) (chat_shown st) (messages_area st) v (toasts
    st) (next_toast st).

Definition set_toasts (v : list Toast) (st : State) : State :=
  mkState (token st) (user st) (privateChats st) (activeChat st) (socket st) (ls_token
    st) (ls_user st) (sockets st) (timers st) (trace st) (view st) (status st) (title
    st) (user_name st) (message_input st) (chat_shown st) (messages_area st) (chat_list
    st) v (next_toast st).

Definition set_next_toast (v : nat) (st : State) : State :=
  mkState (token st) (user st) (privateChats st) (activeChat st) (socket st) (ls_token
    st) (ls_user st) (sockets st) (timers st) (trace st) (view st) (status st) (title
    st) (user_name st) (message_input st) (chat_shown st) (messages_area st) (chat_list
    st) (toasts st) v.

(** ** The handler monad

    A handler runs on the client state and either returns or throws; what
    it wrote before throwing stays written. *)

Definition M (A : Type) : Type := State -> result A * State.

Definition ret {A : Type} (a : A) : M A := fun st => (Ok a, st).

Definition bind {A B : Type} (m : M A) (k : A -> M B) : M B :=
  fun st =>
    match m st with
    | (Ok a, st') => k a st'
    | (Throw e, st') => (Throw e, st')
    end.

Notation "x <- m ;; k" := (bind m (fun x => k))
  (at level 100, m at next level, right associativity).
Notation "m ;; k" := (bind m (fun _ => k))
  (at level 100, right associativity).

Definition lift {A : Type} (r : result A) : M A := fun st => (r, st).

Definition gets {A : Type} (f : State -> A) : M A := fun st => (Ok (f st), st).

Definition modify (f : State -> State) : M unit := fun st => (Ok tt, f st).

(** [try { m } catch (err) { h err }] *)
Definition try_catch (m : M unit) (h : exn -> M unit) : M unit :=
  fun st =>
    match m st with
    | (Ok a, st') => (Ok a, st')
    | (Throw e, st') => h e st'
    end.

(** A call of an [async] function whose promise is dropped: the body runs
    up to its first pending [await]; an exception rejects the promise and
    does not reach the caller. *)
Definition spawn (m : M unit) : M unit := fun st => (Ok tt, snd (m st)).

Fixpoint forEach (items : list json) (f : json -> M unit) : M unit :=
  match items with
  | [] => ret tt
  | x :: rest => f x ;; forEach rest f
  end.

(** [v.forEach(f)]: only an array has the method. *)
Definition js_forEach (v : json) (f : json -> M unit) : M unit :=
  match v with
  | JArr items => forEach items f
  | _ => lift (Throw TypeError)
  end.

(** [textContent = v]: [null] and [undefined] give the empty text. *)
Definition dom_text (v : json) : string :=
  match v with
  | JUndefined | JNull => ""
  | _ => toString v
  end.

Definition API_URL : string := "http://127.0.0.1:8000".
Definition WS_URL : string := "ws://127.0.0.1:8000/ws".

Definition emit (e : effect) : M unit :=
  modify (fun st => set_trace (trace st ++ [e]) st).

Definition setTimeout (cb : callback) (delay : Z) : M unit :=
  emit (SetTimeout cb delay) ;;
  modify (fun st => set_timers (timers st ++ [(delay, cb)]) st).

Definition navigate (viewId : string) : M unit := modify (set_view viewId).

Definition showToast (message : toast_text) (type : string) : M unit :=
  id <- gets next_toast ;;
  modify (fun st => set_toasts (toasts st ++ [mkToast id type message]) st) ;;
  modify (set_next_toast (S id)) ;;
  setTimeout (CbRemoveToast id) 3000.

Definition removeToast (id : nat) : M unit :=
  modify (fun st =>
    set_toasts (List.filter (fun t => negb (Nat.eqb (toast_id t) id)) (toasts st)) st).

(** *** Sockets *)

Definition update_socket (sid : nat) (f : WebSocket -> WebSocket) : M unit :=
  modify (fun st => set_sockets (alter f sid (sockets st)) st).

Definition set_onclose (b : bool) (w : WebSocket) : WebSocket :=
  mkWebSocket (readyState w) b (ws_token w).

Definition set_readyState (r : ReadyState) (w : WebSocket) : WebSocket :=
  mkWebSocket r (onclose w) (ws_token w).

(** [socket.close()]: an open or connecting socket starts closing. *)
Definition start_closing (w : WebSocket) : WebSocket :=
  match readyState w with
  | CONNECTING | OPEN => set_readyState CLOSING w
  | CLOSING | CLOSED => w
  end.

Definition ws_close (sid : nat) : M unit :=
  emit (WsClose sid) ;;
  update_socket sid start_closing.

(** [state.socket && state.socket.readyState === WebSocket.OPEN] *)
Definition open_socket (st : State) : option nat :=
  match socket st with
  | Some sid =>
      match sockets st !! sid with
      | Some w => match readyState w with OPEN => Some sid | _ => None end
      | None => None
      end
  | None => None
  end.

Definition ws_send (sid : nat) (payload : json) : M unit := emit (WsSend sid payload).

(** *** apiCall

    [apiCall] issues its request in the turn it is called in and its
    caller resumes when the response has arrived: [apiCall_request] is the
    part before [await fetch], [apiCall_response] the part after it. *)

Definition apiCall_request (endpoint method : string) (body : json) (isFormData : bool)
    (st : State) : Request :=
  let auth :=
    if truthy (token st)
    then [("Authorization", "Bearer " +:+ toString (token st))]
    else [] in
  if truthy body then
    if isFormData
    then mkRequest (API_URL +:+ endpoint) method auth (Some (FormBody body))
    else mkRequest (API_URL +:+ endpoint) method
           (auth ++ [("Content-Type", "application/json")]) (Some (JsonBody body))
  else mkRequest (API_URL +:+ endpoint) method auth None.

Definition apiCall_response (r : FetchOutcome) : result json :=
  match r with
  | FetchFailed => Throw NetworkError
  | Response _ None => Throw SyntaxError
  | Response ok (Some data) =>
      if negb ok then
        match get "detail" data with
        | Throw e => Throw e
        | Ok detail =>
            if truthy detail then Throw (Error (toString detail))
            else
              match get "message" data with
              | Throw e => Throw e
              | Ok message => Throw (Error (toString (js_or message (JStr "API Error"))))
              end
        end
      else Ok data
  end.

(** The whole call, [fetch] and the server being the environment. *)
Definition apiCall (endpoint method : string) (body : json) (isFormData : bool)
    (r : FetchOutcome) (st : State) : Request * result json :=
  (apiCall_request endpoint method body isFormData st, apiCall_response r).

(** [headers[name]] of a request. *)
Fixpoint header (name : string) (hs : list (string * string)) : option string :=
  match hs with
  | [] => None
  | (k, v) :: rest => if String.eqb name k then Some v else header name rest
  end.

Definition throws {A : Type} (r : result A) : Prop := exists e, r = Throw e.

(** C9 as it is worded.  The message of the error for a response that is
    not ok: the [detail] field of the body if it has one, else its
    [message] field, else the literal. *)
Definition error_message (data : option json) : string :=
  match data with
  | Some (JObj fields) =>
      toString (js_or (assoc "detail" fields)
                  (js_or (assoc "message" fields) (JStr "API Error")))
  | _ => "API Error"
  end.

(** C9 as it is worded: [apiCall] throws exactly when the response is not
    ok, then the [Error] with that message, and returns otherwise. *)
Definition answers_by_status (ok : bool) (data : option json) : Prop :=
  if ok then ~ throws (apiCall_response (Response ok data))
  else apiCall_response (Response ok data) = Throw (Error (error_message data)).

Definition apiCall_send (endpoint method : string) (body : json) (isFormData : bool)
    : M unit :=
  req <- gets (apiCall_request endpoint method body isFormData) ;;
  emit (Fetch req).

(** ** The handlers of app.js *)

Section Client.

(** [new Date(ts).toLocaleTimeString([], { hour: '2-digit', minute:
    '2-digit' })] depends on the locale and time zone of the browser. *)
Variable toLocaleTimeString : json -> string.

Definition newline : string := String "010" EmptyString.

(** The template literal assigned to [div.innerHTML] in [appendMessage]. *)
Definition message_html (bubble time : string) : string :=
  newline +:+ "        <div class=" +:+ dquote +:+ "msg-bubble" +:+ dquote +:+ ">"
    +:+ bubble +:+ "</div>"
    +:+ newline +:+ "        <div class=" +:+ dquote +:+ "msg-meta" +:+ dquote +:+ ">"
    +:+ time +:+ "</div>"
    +:+ newline +:+ "    ".

Definition appendMessage (msg : json) (isMe : bool) : M unit :=
  let cls := "message " +:+ (if isMe then "sent" else "received") in
  ts <- lift (get "timestamp" msg) ;;
  let time := toLocaleTimeString ts in
  content <- lift (get "content" msg) ;;
  modify (fun st =>
    set_messages_area
      (messages_area st ++ [mkMessageDiv cls (message_html (escapeHtml content) time)])
      st).

(** [x.toUpperCase()] is a call of [undefined] unless [x] is a string; the
    letter itself is not kept. *)
Definition toUpperCase (v : json) : result unit :=
  match v with
  | JStr _ => Ok tt
  | _ => Throw TypeError
  end.

Definition renderChatItem (chat : json) : M unit :=
  active <- gets activeChat ;;
  is_active <-
    match active with
    | Some c => id <- lift (get "id" chat) ;; ret (strict_eq (chat_id c) id)
    | None => ret false
    end ;;
  other <- lift (get "other_participant" chat) ;;
  initial <- lift (get0 other) ;;
  lift (toUpperCase initial) ;;
  modify (fun st => set_chat_list (chat_list st ++ [mkChatItem is_active chat]) st).

Definition renderChatList : M unit :=
  modify (set_chat_list []) ;;
  chats <- gets privateChats ;;
  js_forEach chats renderChatItem.

Definition is_private (type : json) : bool := strict_eq type (JStr "private").

(** [openChat] up to [await apiCall(endpoint)]. *)
Definition openChat (chatId type title : json) : M unit :=
  modify (set_activeChat (Some (mkActiveChat chatId type))) ;;
  modify (set_chat_shown true) ;;
  modify (set_title (dom_text title)) ;;
  modify (set_messages_area []) ;;
  renderChatList ;;
  open <- gets open_socket ;;
  match open with
  | Some sid =>
      ws_send sid
        (JObj [("type", JStr (if is_private type
                              then "join_private_chat" else "join_group_chat"));
               ("chat_id", chatId);
               ("group_id", chatId)])
  | None => ret tt
  end ;;
  let endpoint :=
    if is_private type
    then "/api/chats/private/" +:+ toString chatId
    else "/api/chats/groups/" +:+ toString chatId in
  apiCall_send endpoint "GET" JNull false.

(** [openChat] from the arrival of the history response on. *)
Definition openChat_resume (r : FetchOutcome) : M unit :=
  try_catch
    (res <- lift (apiCall_response r) ;;
     messages <- lift (get "messages" res) ;;
     js_forEach messages (fun msg =>
       sender <- lift (get "sender_id" msg) ;;
       me <- gets user ;;
       uid <- lift (get "id" me) ;;
       appendMessage msg (strict_eq sender uid)))
    (fun _ => emit (ConsoleError "Failed to load messages")).

(** [sendMessage]; [now] is [new Date().toISOString()]. *)
Definition sendMessage (now : string) : M unit :=
  active <- gets activeChat ;;
  match active with
  | None => ret tt
  | Some chat =>
      value <- gets message_input ;;
      let content := trim value in
      if negb (truthy (JStr content)) then ret tt
      else
        open <- gets open_socket ;;
        match open with
        | Some sid =>
            me <- gets user ;;
            uid <- lift (get "id" me) ;;
            nick <- lift (get "nick_name" me) ;;
            let tempMsg :=
              JObj [("content", JStr content);
                    ("timestamp", JStr now);
                    ("sender_id", uid);
                    ("sender_name", nick)] in
            appendMessage tempMsg true ;;
            ws_send sid
              (JObj [("type", JStr (if is_private (chat_type chat)
                                    then "private_message" else "group_message"));
                     ("chat_id", chat_id chat);
                     ("group_id", chat_id chat);
                     ("content", JStr content)]) ;;
            modify (set_message_input "")
        | None => showToast (Text "Connection lost") "error"
        end
  end.

Definition connectWebSocket : M unit :=
  tok <- gets token ;;
  if negb (truthy tok) || strict_eq tok (JStr "null") || strict_eq tok (JStr "undefined")
  then ret tt
  else
    old <- gets socket ;;
    match old with
    | Some sid => update_socket sid (set_onclose false) ;; ws_close sid
    | None => ret tt
    end ;;
    sid <- gets (fun st => length (sockets st)) ;;
    emit (NewWebSocket sid (toString tok)) ;;
    modify (fun st =>
      set_sockets (sockets st ++ [mkWebSocket CONNECTING true (toString tok)]) st) ;;
    modify (set_socket (Some sid)).

Definition onopen : M unit :=
  emit (ConsoleLog "WS Connected") ;;
  modify (set_status "Online") ;;
  active <- gets activeChat ;;
  match active with
  | Some chat =>
      title <- gets title ;;
      spawn (openChat (chat_id chat) (chat_type chat) (JStr title))
  | None => ret tt
  end.

Definition onclose_handler : M unit :=
  emit (ConsoleLog "WS Disconnected") ;;
  modify (set_status "Offline") ;;
  tok <- gets token ;;
  if truthy tok then setTimeout CbConnectWebSocket 3000 else ret tt.

Definition new_message_toast (data : json) : M unit :=
  message <- lift (get "message" data) ;;
  name <- lift (get "sender_name" message) ;;
  showToast (Text ("New message from " +:+ toString name)) "success".

Definition handleWsMessage (data : json) : M unit :=
  type <- lift (get "type" data) ;;
  if strict_eq type (JStr "message") then
    active <- gets activeChat ;;
    match active with
    | Some chat =>
        chat_type <- lift (get "chat_type" data) ;;
        cid <- lift (get "chat_id" data) ;;
        gid <- lift (get "group_id" data) ;;
        let isTargetChat :=
          (strict_eq chat_type (JStr "private") && strict_eq cid (chat_id chat))
          || (strict_eq chat_type (JStr "group") && strict_eq gid (chat_id chat)) in
        if isTargetChat then
          message <- lift (get "message" data) ;;
          sender <- lift (get "sender_id" message) ;;
          me <- gets user ;;
          uid <- lift (get "id" me) ;;
          appendMessage message (strict_eq sender uid)
        else new_message_toast data
    | None => new_message_toast data
    end
  else if strict_eq type (JStr "message_sent") then ret tt
  else if strict_eq type (JStr "error") then
    message <- lift (get "message" data) ;;
    showToast (Text (dom_text message)) "error"
  else ret tt.

Definition handleLogout : M unit :=
  modify (set_token JNull) ;;
  modify (set_user JNull) ;;
  modify (set_ls_token None) ;;
  modify (set_ls_user None) ;;
  old <- gets socket ;;
  match old with
  | Some sid =>
      update_socket sid (set_onclose false) ;;
      ws_close sid ;;
      modify (set_socket None)
  | None => ret tt
  end ;;
  navigate "view-auth".

Definition updateUserInfo : M unit :=
  me <- gets user ;;
  if truthy me then
    nick <- lift (get "nick_name" me) ;;
    modify (set_user_name (dom_text nick)) ;;
    initial <- lift (get0 nick) ;;
    lift (toUpperCase initial)
  else ret tt.

(** [loadChats] up to its [await], and from the response on. *)
Definition loadChats : M unit := apiCall_send "/api/chats/private" "GET" JNull false.

Definition loadChats_resume (r : FetchOutcome) : M unit :=
  try_catch
    (res <- lift (apiCall_response r) ;;
     chats <- lift (get "chats" res) ;;
     modify (set_privateChats chats) ;;
     renderChatList)
    (fun _ => emit (ConsoleError "Failed to load chats")).

Definition loadInitialData : M unit := updateUserInfo ;; loadChats.

(** [handleLogin] and [handleSignup] from the response of the
    authentication endpoint on; they differ in the toast. *)
Definition handleLogin_resume (greeting : string) (r : FetchOutcome) : M unit :=
  try_catch
    (res <- lift (apiCall_response r) ;;
     access_token <- lift (get "access_token" res) ;;
     modify (set_token access_token) ;;
     me <- lift (get "user" res) ;;
     modify (set_user me) ;;
     modify (set_ls_token (Some (toString access_token))) ;;
     modify (set_ls_user (Some me)) ;;
     showToast (Text greeting) "success" ;;
     navigate "view-app" ;;
     connectWebSocket ;;
     spawn loadInitialData)
    (fun err => showToast (MessageOf err) "error").

(** [handleContactSubmit] from the response on. *)
Definition handleContactSubmit_resume (r : FetchOutcome) : M unit :=
  try_catch
    (lift (apiCall_response r) ;;
     showToast (Text "Message sent successfully!") "success" ;;
     setTimeout (CbNavigate "view-auth") 2000)
    (fun err => showToast (MessageOf err) "error").

(** *** The event loop

    One event is one turn of the browser's event loop: a user action, a
    socket event, a timeout that fires, a response that arrives.  An
    exception that escapes a handler is reported by the browser and the
    state stays as the handler left it.

    The handlers of the chat are events of their own.  The remaining
    handlers of [app.js] (the user list, [createPrivateChat], the admin
    panel, the navigation buttons) act on the modelled state only by
    navigating, by opening a private chat, by calling [apiCall] and by
    showing a toast: [Navigate], [OpenChat], [OtherRequest] and [OtherToast] stand
    for these, with arbitrary arguments. *)

Inductive event : Type :=
| TypeInput (value : string)
| Submit (now : string)
| ClickChat (i : nat)
| ClickLogout
| LoginSettled (greeting : string) (r : FetchOutcome)
| ChatsSettled (r : FetchOutcome)
| HistorySettled (r : FetchOutcome)
| WsOpen (sid : nat)
| WsMessage (sid : nat) (data : option json)
| WsClosed (sid : nat)
| TimerFired (i : nat)
| Navigate (viewId : string)
| OpenChat (chatId title : json)
| OtherRequest (endpoint method : string) (body : json) (isFormData : bool)
| OtherToast (message : toast_text) (type : string)
| ContactSettled (r : FetchOutcome).

Definition exec (m : M unit) (st : State) : State := snd (m st).

Definition run_callback (cb : callback) : M unit :=
  match cb with
  | CbConnectWebSocket => connectWebSocket
  | CbRemoveToast id => removeToast id
  | CbNavigate viewId => navigate viewId
  end.

Definition step (ev : event) (st : State) : State :=
  match ev with
  | TypeInput value => set_message_input value st
  | Submit now => exec (sendMessage now) st
  | ClickChat i =>
      match chat_list st !! i with
      | Some li =>
          exec (id <- lift (get "id" (li_chat li)) ;;
                other <- lift (get "other_participant" (li_chat li)) ;;
                openChat id (JStr "private") other) st
      | None => st
      end
  | ClickLogout => exec handleLogout st
  | LoginSettled greeting r => exec (handleLogin_resume greeting r) st
  | ChatsSettled r => exec (loadChats_resume r) st
  | HistorySettled r => exec (openChat_resume r) st
  | WsOpen sid =>
      match sockets st !! sid with
      | Some w =>
          match readyState w with
          | CONNECTING => exec (update_socket sid (set_readyState OPEN) ;; onopen) st
          | _ => st
          end
      | None => st
      end
  | WsMessage sid data =>
      match sockets st !! sid with
      | Some w =>
          match readyState w, data with
          | OPEN, Some d => exec (handleWsMessage d) st
          | _, _ => st
          end
      | None => st
      end
  | WsClosed sid =>
      match sockets st !! sid with
      | Some w =>
          match readyState w with
          | CLOSED => st
          | _ =>
              exec (update_socket sid (set_readyState CLOSED) ;;
                    if onclose w then onclose_handler else ret tt) st
          end
      | None => st
      end
  | TimerFired i =>
      match timers st !! i with
      | Some (_, cb) =>
          exec (modify (fun s => set_timers (take i (timers s) ++ drop (S i) (timers s)) s) ;;
                run_callback cb) st
      | None => st
      end
  | Navigate viewId => exec (navigate viewId) st
  | OpenChat chatId title => exec (openChat chatId (JStr "private") title) st
  | OtherRequest endpoint method body isFormData =>
      exec (apiCall_send endpoint method body isFormData) st
  | OtherToast message type => exec (showToast message type) st
  | ContactSettled r => exec (handleContactSubmit_resume r) st
  end.

Fixpoint run (evs : list event) (st : State) : State :=
  match evs with
  | [] => st
  | ev :: rest => run rest (step ev st)
  end.

(** The state when the script is loaded: [token] and [user] come from
    [localStorage], everything else is empty. *)
Definition initial (stored_token : option string) (stored_user : option json) : State :=
  mkState
    (match stored_token with Some s => JStr s | None => JNull end)
    (match stored_user with Some u => u | None => JNull end)
    (JArr []) None None
    stored_token stored_user [] [] []
    "" "" "" "" "" false [] [] [] 0.

(** The [DOMContentLoaded] listener. *)
Definition boot : M unit :=
  tok <- gets token ;;
  if truthy tok then
    navigate "view-app" ;;
    connectWebSocket ;;
    spawn loadInitialData
  else navigate "view-auth".

(** *** What the server answers a send with

    The frames [handleWsMessage] tells apart: the acknowledgment to the
    sender, of type [message_sent], and the broadcast to the room, of
    type [message]. *)
Definition is_message_sent (data : json) : Prop :=
  get "type" data = Ok (JStr "message_sent").

Definition message_event (chat : ActiveChat) (message : json) : json :=
  JObj [("type", JStr "message");
        ("chat_type", chat_type chat);
        ("chat_id", chat_id chat);
        ("group_id", chat_id chat);
        ("message", message)].

(** C1 as it is worded: a send, its acknowledgment and the broadcast of
    the sent message for the active chat, arriving on a socket, leave the
    message rendered once, that is, add one message to the message area. *)
Definition rendered_once (st : State) (sid : nat) (now : string) (ack message : json)
    : Prop :=
  match activeChat st with
  | Some chat =>
      length (messages_area
                (run [Submit now;
                      WsMessage sid (Some ack);
                      WsMessage sid (Some (message_event chat message))] st))
      = S (length (messages_area st))
  | None => True
  end.

(** The frame that joins the room of a chat and the endpoint serving its
    history, as [openChat] builds them. *)
Definition history_endpoint (chat : ActiveChat) : string :=
  if is_private (chat_type chat)
  then "/api/chats/private/" +:+ toString (chat_id chat)
  else "/api/chats/groups/" +:+ toString (chat_id chat).

Definition join_frame (chat : ActiveChat) : json :=
  JObj [("type", JStr (if is_private (chat_type chat)
                       then "join_private_chat" else "join_group_chat"));
        ("chat_id", chat_id chat);
        ("group_id", chat_id chat)].

(** *** Reconnection

    The effects that (re)connect: the timeout that calls
    [connectWebSocket] and the construction of a socket. *)
Definition is_reconnect (e : effect) : bool :=
  match e with
  | SetTimeout CbConnectWebSocket _ => true
  | NewWebSocket _ _ => true
  | _ => false
  end.

Definition reconnects (tr : list effect) : list effect := List.filter is_reconnect tr.

Definition is_login (ev : event) : bool :=
  match ev with
  | LoginSettled _ _ => true
  | _ => false
  end.

(** A socket that can still call back into the client through [onopen],
    [onmessage] or [onclose]. *)
Definition live (w : WebSocket) : bool :=
  onclose w ||
  match readyState w with
  | CONNECTING | OPEN => true
  | CLOSING | CLOSED => false
  end.

(** [x[0].toUpperCase()] goes through for the participant of the chat. *)
Definition chat_renders (chat : json) : bool :=
  match get "other_participant" chat with
  | Ok other =>
      match get0 other with
      | Ok (JStr _) => true
      | _ => false
      end
  | Throw _ => false
  end.

(** [renderChatList] goes through: [state.privateChats] is an array of
    chats with a participant name. *)
Definition chat_list_renders (st : State) : bool :=
  match privateChats st with
  | JArr chats => forallb chat_renders chats
  | _ => false
  end.

(** A transition that leaves the token and the sockets alone and
    performs no reconnecting effect; a handler all of whose transitions
    are of that kind. *)
Definition quiet_step (st st' : State) : Prop :=
  token st' = token st /\ socket st' = socket st /\ sockets st' = sockets st /\
  reconnects (trace st') = reconnects (trace st).

Definition quiet {A : Type} (m : M A) : Prop := forall st, quiet_step st (snd (m st)).

(** Every live socket is the one [state.socket] refers to. *)
Definition current_socket_only (st : State) : Prop :=
  forall sid w, sockets st !! sid = Some w -> live w = true -> socket st = Some sid.

(** [state.socket] is a socket with its [onclose] handler installed. *)
Definition current_socket_listens (st : State) : Prop :=
  forall sid, socket st = Some sid ->
    exists w, sockets st !! sid = Some w /\ onclose w = true.

(** The client after a logout: no token, no socket, no live socket. *)
Definition logged_out (st : State) : Prop :=
  truthy (token st) = false /\ socket st = None /\
  forall sid w, sockets st !! sid = Some w -> live w = false.

Definition preserves (P : State -> Prop) {A : Type} (m : M A) : Prop :=
  forall st, P st -> P (snd (m st)).

(** [connectWebSocket] returns at once on such a token. *)
Definition unusable_token (tok : json) : bool :=
  negb (truthy tok) || strict_eq tok (JStr "null") || strict_eq tok (JStr "undefined").

(** What [onclose = null; close()] leaves of the sockets. *)
Definition drop_socket (sid : nat) (l : list WebSocket) : list WebSocket :=
  alter start_closing sid (alter (set_onclose false) sid l).

Inductive reachable : State -> Prop :=
| reachable_boot stored_token stored_user :
    reachable (exec boot (initial stored_token stored_user))
| reachable_step ev st :
    reachable st -> reachable (step ev st).

End Client.

(** ** A session of the client, for the examples

    Ann is logged in from an earlier visit, opens her chat with Bob and
    types a message; later the socket drops and the client reconnects. *)

Module Session.

(** A locale that prints the hour and minute of an ISO timestamp. *)
Definition hh_mm (ts : json) : string := substring 11 5 (toString ts).

Definition ann : json := JObj [("id", JNum 7); ("nick_name", JStr "ann")].

Definition chats : FetchOutcome :=
  Response true
    (Some (JObj [("chats",
                  JArr [JObj [("id", JNum 1); ("other_participant", JStr "bob")]])])).

Definition start : State := exec boot (initial (Some "jwt") (Some ann)).

Definition chatting : State :=
  run hh_mm [ChatsSettled chats; WsOpen 0; ClickChat 0; TypeInput " hi "] start.

Definition offline : State := run hh_mm [WsClosed 0] chatting.

Definition reconnecting : State := run hh_mm [TimerFired 0] offline.

Definition ack : json := JObj [("type", JStr "message_sent")].

Definition own_message : json :=
  JObj [("content", JStr "hi"); ("timestamp", JStr "2024-05-01T12:34:57Z");
        ("sender_id", JNum 7); ("sender_name", JStr "ann")].

End Session.

(** ** The message router (server side)

    [Settings.MAX_MESSAGE_LENGTH] is the constant of the server's
    configuration; the registry, the subscription table and the router
    themselves are not among the sources. *)

Module Settings.
Definition MAX_MESSAGE_LENGTH : Z := 10000.
End Settings.

Module Router.

(** Identities, connection handles and room identifiers are opaque
    names; natural numbers stand for them. *)
Abbreviation Identity := nat (only parsing).
Abbreviation ConnectionHandle := nat (only parsing).
Abbreviation RoomId := nat (only parsing).

Inductive RoomKind : Type := private | group.

Record Room : Type := mkRoom { kind : RoomKind; members : gset nat }.

Record Message : Type := mkMessage {
  room_id : RoomId;
  sender : Identity;
  content : string;
  sequence : nat;
  timestamp : Z
}.

Inductive ErrorKind : Type :=
| AuthError
| NotAMember
| MessageTooLarge
| StoreError
| ResourceExhausted.

Inductive outcome (A : Type) : Type :=
| Success (a : A)
| Failure (e : ErrorKind).
Arguments Success {A} a.
Arguments Failure {A} e.

(** Modelled from the spec: the state of the core, section 3 and 4.  The
    Room Directory maps a room to its kind and member set; the Connection
    Registry maps a live connection to its owning identity, up to
    [capacity] connections; the Room Subscription Table maps a connection
    to the rooms it joined; the abstract store keeps an append-only log
    per room; [deliveries] lists the messages handed to connections.
    [append_calls] counts the calls of the store's [append], failed ones
    included, so that "no persistence attempted" can be said. *)
Record Core : Type := mkCore {
  directory : gmap nat Room;
  capacity : nat;
  registry : gmap nat nat;
  subscriptions : gmap nat (gset nat);
  store : gmap nat (list Message);
  append_calls : nat;
  deliveries : list (ConnectionHandle * Message)
}.

Definition empty (directory : gmap nat Room) (capacity : nat) : Core :=
  mkCore directory capacity ∅ ∅ ∅ 0 [].

(** Modelled from the spec: [membersOf] of the Room Directory (4.3). *)
Definition membersOf (r : RoomId) (c : Core) : gset nat :=
  match directory c !! r with
  | Some room => members room
  | None => ∅
  end.

Definition log (r : RoomId) (c : Core) : list Message :=
  default [] (store c !! r).

Definition subscribed (h : ConnectionHandle) (c : Core) : gset nat :=
  default ∅ (subscriptions c !! h).

Definition with_registry (g : gmap nat nat) (c : Core) : Core :=
  mkCore (directory c) (capacity c) g (subscriptions c) (store c)
    (append_calls c) (deliveries c).

Definition with_subscriptions (s : gmap nat (gset nat)) (c : Core) : Core :=
  mkCore (directory c) (capacity c) (registry c) s (store c)
    (append_calls c) (deliveries c).

Definition with_directory (d : gmap nat Room) (c : Core) : Core :=
  mkCore d (capacity c) (registry c) (subscriptions c) (store c)
    (append_calls c) (deliveries c).

(** Modelled from the spec: [connect] of the Connection Registry (4.1),
    failing with [ResourceExhausted] at capacity and leaving the existing
    connections as they are. *)
Definition connect (identity : Identity) (h : ConnectionHandle) (c : Core)
    : outcome ConnectionHandle * Core :=
  if decide (capacity c <= size (registry c))%nat then (Failure ResourceExhausted, c)
  else (Success h, with_registry (<[h := identity]> (registry c)) c).

(** Modelled from the spec: [dropAll] of the subscription table (4.2),
    one step that removes every subscription of the connection. *)
Definition dropAll (h : ConnectionHandle) (c : Core) : Core :=
  with_subscriptions (delete h (subscriptions c)) c.

(** Modelled from the spec: [disconnect] (4.1), idempotent, removing the
    connection and all its subscriptions. *)
Definition disconnect (h : ConnectionHandle) (c : Core) : Core :=
  dropAll h (with_registry (delete h (registry c)) c).

(** Modelled from the spec: [join] (4.2).  Membership is read from the
    Room Directory at call time; a handle that is not registered has no
    owning identity in any member set. *)
Definition join (h : ConnectionHandle) (r : RoomId) (c : Core)
    : outcome unit * Core :=
  match registry c !! h with
  | Some identity =>
      if decide (identity ∈ membersOf r c)
      then (Success tt,
            with_subscriptions (<[h := {[r]} ∪ subscribed h c]> (subscriptions c)) c)
      else (Failure NotAMember, c)
  | None => (Failure NotAMember, c)
  end.

(** Modelled from the spec: [leave] (4.2), "idempotent removal". *)
Definition leave (h : ConnectionHandle) (r : RoomId) (c : Core)
    : outcome unit * Core :=
  match subscriptions c !! h with
  | Some rooms =>
      (Success tt, with_subscriptions (<[h := rooms ∖ {[r]}]> (subscriptions c)) c)
  | None => (Success tt, c)
  end.

(** Modelled from the spec: [subscribersOf] (4.2), the connections
    currently joined to the room. *)
Definition subscribersOf (r : RoomId) (c : Core) : list ConnectionHandle :=
  List.filter (fun h => bool_decide (r ∈ subscribed h c))
    (map fst (map_to_list (subscriptions c))).

(** Modelled from the spec: [append] of the abstract store (section 6).
    [up] says whether the store accepts the write; the sequence number is
    assigned on acceptance only and is the next one of the room. *)
Definition append (up : bool) (r : RoomId) (from : Identity) (text : string)
    (time : Z) (c : Core) : outcome Message * Core :=
  let counted :=
    mkCore (directory c) (capacity c) (registry c) (subscriptions c) (store c)
      (S (append_calls c)) (deliveries c) in
  if up then
    let m := mkMessage r from text (S (length (log r c))) time in
    (Success m,
     mkCore (directory c) (capacity c) (registry c) (subscriptions c)
       (<[r := log r c ++ [m]]> (store c))
       (S (append_calls c)) (deliveries c))
  else (Failure StoreError, counted).

(** Modelled from the spec: step 5 of [route], the delivery of the message
    to each connection of the fan-out set. *)
Definition deliver (m : Message) (targets : list ConnectionHandle) (c : Core) : Core :=
  mkCore (directory c) (capacity c) (registry c) (subscriptions c) (store c)
    (append_calls c) (deliveries c ++ map (fun h => (h, m)) targets).

(** Modelled from the spec: [route] (4.4), steps 1 to 6.  Calls on a room
    are serialised, so a call is one atomic transition. *)
Definition route (up : bool) (from : Identity) (r : RoomId) (text : string)
    (time : Z) (c : Core) : outcome Message * Core :=
  if decide (Settings.MAX_MESSAGE_LENGTH < Z.of_nat (String.length text))%Z
  then (Failure MessageTooLarge, c)
  else if decide (from ∈ membersOf r c) then
    match append up r from text time c with
    | (Success m, c') => (Success m, deliver m (subscribersOf r c') c')
    | (Failure e, c') => (Failure e, c')
    end
  else (Failure NotAMember, c).

(** Modelled from the spec: [recentMessages] of the History Service
    (4.5), the last [limit] messages in ascending sequence order. *)
Definition recentMessages (r : RoomId) (limit : nat) (c : Core) : list Message :=
  let l := log r c in drop (length l - limit) l.

(** The operations the core is driven by; [SetMembers] is the external
    mutation of the Room Directory. *)
Inductive op : Type :=
| Connect (identity : Identity) (h : ConnectionHandle)
| Disconnect (h : ConnectionHandle)
| Join (h : ConnectionHandle) (r : RoomId)
| Leave (h : ConnectionHandle) (r : RoomId)
| Route (up : bool) (from : Identity) (r : RoomId) (text : string) (time : Z)
| SetMembers (r : RoomId) (room : Room).

Definition apply (o : op) (c : Core) : Core :=
  match o with
  | Connect identity h => snd (connect identity h c)
  | Disconnect h => disconnect h c
  | Join h r => snd (join h r c)
  | Leave h r => snd (leave h r c)
  | Route up from r text time => snd (route up from r text time c)
  | SetMembers r room => with_directory (<[r := room]> (directory c)) c
  end.

(** The messages the calls of [ops] on room [r] were answered with, in
    call order, together with the final state. *)
Fixpoint accepted (r : RoomId) (ops : list op) (c : Core) : list Message * Core :=
  match ops with
  | [] => ([], c)
  | o :: rest =>
      let here :=
        match o with
        | Route up from r' text time =>
            match route up from r' text time c with
            | (Success m, _) => if decide (r' = r) then [m] else []
            | (Failure _, _) => []
            end
        | _ => []
        end in
      let '(later, c') := accepted r rest (apply o c) in
      (here ++ later, c')
  end.

(** *** A room, for the examples

    Room 1 is the private room of identities 10 and 20; identity 10 is
    connected as connection 100. *)
Definition two_members : gmap nat Room := {[ 1 := mkRoom private {[ 10; 20 ]} ]}.

Definition connected : Core := snd (connect 10 100 (empty two_members 8)).

Definition long_text : string :=
  string_of_list_ascii (repeat "a"%char (Z.to_nat 10001)).

Definition busy_day : list op :=
  [Connect 10 100; Join 100 1;
   Route true 10 1 "first" 0;
   Route false 10 1 "lost" 1;
   Route true 30 1 "intruder" 2;
   Route true 20 1 "second" 3;
   Disconnect 100;
   Route true 10 1 "third" 4].

End Router.

(** ** What a handler leaves alone, and views of the other handlers

    [keeps f m]: the handler [m] ends with [f] of the state as it was. *)

Definition keeps {B A : Type} (f : State -> B) (m : M A) : Prop :=
  forall st, f (snd (m st)) = f st.

(** The effects that leave the page: a socket constructed or closed, a
    frame sent, a request issued. *)
Definition is_outbound (e : effect) : bool :=
  match e with
  | NewWebSocket _ _ | WsSend _ _ | WsClose _ | Fetch _ => true
  | SetTimeout _ _ | ConsoleLog _ | ConsoleError _ => false
  end.

Definition outbound (tr : list effect) : list effect := List.filter is_outbound tr.

(** [v.k] when [v] is neither [null] nor [undefined]. *)
Definition prop (k : string) (v : json) : json :=
  match get k v with
  | Ok x => x
  | Throw _ => JUndefined
  end.

Definition is_nullish (v : json) : bool :=
  match v with
  | JUndefined | JNull => true
  | _ => false
  end.

(** The test [isTargetChat] of [handleWsMessage], on the id of the active
    chat. *)
Definition isTargetChat (id data : json) : bool :=
  (strict_eq (prop "chat_type" data) (JStr "private") && strict_eq (prop "chat_id" data) id)
  || (strict_eq (prop "chat_type" data) (JStr "group") && strict_eq (prop "group_id" data) id).

(** The [div] that [appendMessage] appends for a message that is neither
    [null] nor [undefined]; [fmt] is the locale's [toLocaleTimeString]. *)
Definition message_div (fmt : json -> string) (isMe : bool) (msg : json) : MessageDiv :=
  mkMessageDiv ("message " +:+ (if isMe then "sent" else "received"))
    (message_html (escapeHtml (prop "content" msg)) (fmt (prop "timestamp" msg))).

(** The messages of a list up to the first [null] or [undefined] one, at
    which [forEach] stops with a [TypeError]. *)
Fixpoint before_nullish (l : list json) : list json :=
  match l with
  | [] => []
  | x :: rest => if is_nullish x then [] else x :: before_nullish rest
  end.

(** The chats of a list up to the first one that [renderChatList] cannot
    render. *)
Fixpoint before_unnamed (chats : list json) : list json :=
  match chats with
  | [] => []
  | chat :: rest => if chat_renders chat then chat :: before_unnamed rest else []
  end.

(** The list item of a chat: it is marked active when its id is the id of
    the active chat. *)
Definition chat_item (active : option ActiveChat) (chat : json) : ChatItem :=
  mkChatItem
    match active with
    | Some c => strict_eq (chat_id c) (prop "id" chat)
    | None => false
    end
    chat.

(** [v[0].toUpperCase()] goes through. *)
Definition has_initial (v : json) : bool :=
  match get0 v with
  | Ok (JStr _) => true
  | _ => false
  end.

(** [updateUserInfo] goes through: no user, or a user whose [nick_name]
    has an initial. *)
Definition user_info_renders (u : json) : bool :=
  negb (truthy u) || has_initial (prop "nick_name" u).

(** The request of the chats, as [loadChats] issues it. *)
Definition chats_request (st : State) : Request :=
  apiCall_request "/api/chats/private" "GET" JNull false st.

(** The events of logging out and of a login or signup settling. *)
Definition is_session_change (ev : event) : bool :=
  match ev with
  | ClickLogout | LoginSettled _ _ => true
  | _ => false
  end.

(** Every toast on the page has its removal pending: a timeout of 3000 ms
    whose callback removes that toast. *)
Definition toasts_expire (st : State) : Prop :=
  forall t, t ∈ toasts st -> (3000%Z, CbRemoveToast (toast_id t)) ∈ timers st.

(** * Properties *)

(** ** Values and strings *)

Example escapeHtml_script :
  escapeHtml (JStr "<b>Tom & Jerry</b>") = "&lt;b&gt;Tom &amp; Jerry&lt;/b&gt;".
Proof. reflexivity. Qed.

Example escapeHtml_number : escapeHtml (JNum 0) = "" /\ escapeHtml (JNum 42) = "42".
Proof. split; reflexivity. Qed.

Example trim_inner : trim "  a b  " = "a b" /\ trim "   " = "".
Proof. split; reflexivity. Qed.

Example toString_array : toString (JArr [JNum 1; JNull; JStr "x"]) = "1,,x".
Proof. reflexivity. Qed.

Lemma string_app_assoc (a b c : string) : (a +:+ b) +:+ c = a +:+ (b +:+ c).
Proof.
  induction a as [|x a IH]; [reflexivity|].
  change (String x ((a +:+ b) +:+ c) = String x (a +:+ (b +:+ c))).
  f_equal. exact IH.
Qed.

Lemma count_char_app (c : ascii) (a b : string) :
  count_char c (a +:+ b) = count_char c a + count_char c b.
Proof.
  induction a as [|x a IH]; simpl; [reflexivity|].
  rewrite IH. lia.
Qed.

Lemma count_char_single (c x : ascii) :
  Ascii.eqb x c = false -> count_char c (String x EmptyString) = 0.
Proof.
  intros H. simpl. rewrite Ascii.eqb_sym, H. reflexivity.
Qed.

Lemma escape_char_lt (x : ascii) : count_char "<" (escape_char x) = 0.
Proof.
  unfold escape_char.
  destruct (Ascii.eqb x "&"); [reflexivity|].
  destruct (Ascii.eqb x "160"); [reflexivity|].
  destruct (Ascii.eqb x "<") eqn:E; [reflexivity|].
  destruct (Ascii.eqb x ">"); [reflexivity|].
  now apply count_char_single.
Qed.

Lemma escape_char_gt (x : ascii) : count_char ">" (escape_char x) = 0.
Proof.
  unfold escape_char.
  destruct (Ascii.eqb x "&"); [reflexivity|].
  destruct (Ascii.eqb x "160"); [reflexivity|].
  destruct (Ascii.eqb x "<"); [reflexivity|].
  destruct (Ascii.eqb x ">") eqn:E; [reflexivity|].
  now apply count_char_single.
Qed.

Lemma serialize_text_angle (s : string) :
  count_char "<" (serialize_text s) = 0 /\ count_char ">" (serialize_text s) = 0.
Proof.
  induction s as [|x s [IHl IHg]]; [split; reflexivity|].
  cbn [serialize_text]. rewrite !count_char_app, escape_char_lt, escape_char_gt.
  split; assumption.
Qed.

Lemma serialize_text_app (a b : string) :
  serialize_text (a +:+ b) = serialize_text a +:+ serialize_text b.
Proof.
  induction a as [|x a IH]; [reflexivity|].
  change (serialize_text (String x a +:+ b))
    with (escape_char x +:+ serialize_text (a +:+ b)).
  change (serialize_text (String x a)) with (escape_char x +:+ serialize_text a).
  now rewrite IH, string_app_assoc.
Qed.

Lemma escapeHtml_string (s : string) : escapeHtml (JStr s) = serialize_text s.
Proof. destruct s; reflexivity. Qed.

Lemma escapeHtml_angle (text : json) :
  count_char "<" (escapeHtml text) = 0 /\ count_char ">" (escapeHtml text) = 0.
Proof.
  unfold escapeHtml. destruct (negb (truthy text)); [split; reflexivity|].
  apply serialize_text_angle.
Qed.

Lemma message_html_lt (bubble time : string) :
  count_char "<" (message_html bubble time)
  = 4 + count_char "<" bubble + count_char "<" time.
Proof.
  unfold message_html. rewrite !count_char_app. simpl. lia.
Qed.

Lemma message_html_gt (bubble time : string) :
  count_char ">" (message_html bubble time)
  = 4 + count_char ">" bubble + count_char ">" time.
Proof.
  unfold message_html. rewrite !count_char_app. simpl. lia.
Qed.

(** ** The client *)

Section ClientFacts.

Variable fmt : json -> string.

(** What [appendMessage] does: it throws on a [null] or [undefined]
    message and writes nothing, and otherwise appends one [div] whose
    bubble is the escaped content. *)
Lemma appendMessage_spec (msg : json) (isMe : bool) (st : State) :
  match appendMessage fmt msg isMe st with
  | (Ok _, st') =>
      exists content ts,
        get "content" msg = Ok content /\ get "timestamp" msg = Ok ts /\
        st' = set_messages_area
                (messages_area st ++
                   [mkMessageDiv ("message " +:+ (if isMe then "sent" else "received"))
                      (message_html (escapeHtml content) (fmt ts))]) st
  | (Throw e, st') => e = TypeError /\ st' = st /\ get "timestamp" msg = Throw TypeError
  end.
Proof.
  unfold appendMessage, bind, lift, modify.
  destruct msg; cbn [get]; eauto 6.
Qed.

(** C8: [escapeHtml] leaves no raw angle bracket in its result, replaces
    the two angle brackets and the ampersand by their entities, character
    by character, and returns the empty string for [null], [undefined]
    and the empty string; the bubble [appendMessage] writes is the
    escaped content, so the markup appended for a message has the four
    tags of the template (and what the formatted time holds), whatever
    the content. *)
Theorem escapeHtml_blocks_markup :
  (forall text : json,
      count_char "<" (escapeHtml text) = 0 /\ count_char ">" (escapeHtml text) = 0) /\
  (forall s1 s2 : string,
      escapeHtml (JStr (s1 +:+ s2)) = escapeHtml (JStr s1) +:+ escapeHtml (JStr s2)) /\
  (escapeHtml (JStr "<") = "&lt;" /\ escapeHtml (JStr ">") = "&gt;" /\
   escapeHtml (JStr "&") = "&amp;") /\
  (escapeHtml JNull = "" /\ escapeHtml JUndefined = "" /\ escapeHtml (JStr "") = "") /\
  (forall (msg : json) (isMe : bool) (st : State),
      match appendMessage fmt msg isMe st with
      | (Ok _, st') =>
          exists content ts cls,
            get "content" msg = Ok content /\ get "timestamp" msg = Ok ts /\
            messages_area st' =
              messages_area st ++
                [mkMessageDiv cls (message_html (escapeHtml content) (fmt ts))] /\
            count_char "<" (message_html (escapeHtml content) (fmt ts))
              = 4 + count_char "<" (fmt ts) /\
            count_char ">" (message_html (escapeHtml content) (fmt ts))
              = 4 + count_char ">" (fmt ts)
      | (Throw _, st') => messages_area st' = messages_area st
      end).
Proof.
  split; [exact escapeHtml_angle|].
  split; [intros s1 s2; rewrite !escapeHtml_string; apply serialize_text_app|].
  split; [repeat split; reflexivity|].
  split; [repeat split; reflexivity|].
  intros msg isMe st.
  pose proof (appendMessage_spec msg isMe st) as H.
  destruct (appendMessage fmt msg isMe st) as [[u|e] st'].
  - destruct H as (content & ts & Hc & Ht & ->).
    exists content, ts, ("message " +:+ (if isMe then "sent" else "received")).
    destruct (escapeHtml_angle content) as [Hl Hg].
    rewrite message_html_lt, message_html_gt, Hl, Hg.
    repeat split; try assumption; try lia.
  - destruct H as (_ & -> & _). reflexivity.
Qed.

Lemma open_socket_None (st : State) :
  socket st = None \/
  (exists sid w, socket st = Some sid /\ sockets st !! sid = Some w /\ readyState w <> OPEN) ->
  open_socket st = None.
Proof.
  unfold open_socket. intros [-> | (sid & w & -> & -> & Hw)]; [reflexivity|].
  destruct (readyState w); congruence.
Qed.

Lemma open_socket_Some (st : State) (sid : nat) :
  open_socket st = Some sid ->
  socket st = Some sid /\
  exists w, sockets st !! sid = Some w /\ readyState w = OPEN.
Proof.
  unfold open_socket. destruct (socket st) as [s|]; [|discriminate].
  destruct (sockets st !! s) as [w|] eqn:Hw; [|discriminate].
  destruct (readyState w) eqn:Hr; try discriminate.
  intros [= <-]. eauto.
Qed.

(** C10: without an active chat, or with an input that trims to the
    empty string, [sendMessage] returns with the client state as it was;
    with a chat and a message but no open socket it shows the error toast
    and does nothing else: nothing is rendered, nothing is sent, the
    input keeps its text. *)
Theorem sendMessage_guards (now : string) (st : State) :
  (activeChat st = None \/ trim (message_input st) = "" ->
   sendMessage fmt now st = (Ok tt, st)) /\
  (activeChat st <> None -> trim (message_input st) <> "" ->
   socket st = None \/
   (exists sid w, socket st = Some sid /\ sockets st !! sid = Some w /\
                  readyState w <> OPEN) ->
   exists st',
     sendMessage fmt now st = (Ok tt, st') /\
     st' = exec (showToast (Text "Connection lost") "error") st /\
     messages_area st' = messages_area st /\
     message_input st' = message_input st /\
     toasts st' = toasts st ++ [mkToast (next_toast st) "error" (Text "Connection lost")] /\
     trace st' = trace st ++ [SetTimeout (CbRemoveToast (next_toast st)) 3000]).
Proof.
  split.
  - intros H. unfold sendMessage, bind, gets.
    destruct (activeChat st) as [chat|]; [|reflexivity].
    destruct H as [H|H]; [discriminate|]. now rewrite H.
  - intros Hchat Hcontent Hsock.
    apply open_socket_None in Hsock.
    unfold sendMessage, bind, gets.
    destruct (activeChat st) as [chat|]; [|congruence].
    destruct (trim (message_input st)) as [|c rest]; [congruence|].
    cbn [truthy negb]. rewrite Hsock.
    eexists. split; [|split; [reflexivity|]].
    + unfold exec. destruct (showToast _ _ st) as [[[]|e] st'] eqn:E; [reflexivity|].
      unfold showToast, setTimeout, emit, bind, gets, modify in E. discriminate.
    + destruct st; repeat split; reflexivity.
Qed.

Lemma sendMessage_open (now : string) (st : State) chat sid uid nick :
  activeChat st = Some chat ->
  trim (message_input st) <> "" ->
  open_socket st = Some sid ->
  get "id" (user st) = Ok uid ->
  get "nick_name" (user st) = Ok nick ->
  let content := JStr (trim (message_input st)) in
  sendMessage fmt now st =
    (Ok tt,
     set_message_input ""
       (set_trace
          (trace st ++
             [WsSend sid
                (JObj [("type", JStr (if is_private (chat_type chat)
                                      then "private_message" else "group_message"));
                       ("chat_id", chat_id chat);
                       ("group_id", chat_id chat);
                       ("content", content)])])
          (set_messages_area
             (messages_area st ++
                [mkMessageDiv "message sent"
                   (message_html (escapeHtml content) (fmt (JStr now)))]) st))).
Proof.
  intros Hchat Hcontent Hopen Hid Hnick content.
  unfold sendMessage, bind, gets, lift. rewrite Hchat.
  subst content.
  destruct (trim (message_input st)) as [|c rest] eqn:Htrim; [congruence|].
  cbn [truthy negb]. rewrite Hopen, Hid, Hnick.
  destruct st; reflexivity.
Qed.

(** The acknowledgment is ignored: the handler reads its type and
    returns. *)
Lemma handleWsMessage_message_sent (ack : json) (st : State) :
  is_message_sent ack -> handleWsMessage fmt ack st = (Ok tt, st).
Proof.
  unfold is_message_sent, handleWsMessage, bind, lift. intros ->. reflexivity.
Qed.

(** A broadcast for the active chat is appended, whatever the message
    area holds already. *)
Lemma handleWsMessage_active_chat (chat : ActiveChat) (message : json) (st : State)
    sender uid :
  activeChat st = Some chat ->
  chat_type chat = JStr "private" \/ chat_type chat = JStr "group" ->
  strict_eq (chat_id chat) (chat_id chat) = true ->
  get "sender_id" message = Ok sender ->
  get "id" (user st) = Ok uid ->
  handleWsMessage fmt (message_event chat message) st
  = appendMessage fmt message (strict_eq sender uid) st.
Proof.
  intros Hchat Htype Hid Hsender Huid.
  unfold handleWsMessage, message_event, bind, lift, gets.
  cbn [get assoc String.eqb Ascii.eqb Bool.eqb strict_eq]. rewrite Hchat.
  cbn [get assoc String.eqb Ascii.eqb Bool.eqb]. rewrite Hid.
  destruct Htype as [-> | ->]; cbn [strict_eq String.eqb Ascii.eqb Bool.eqb andb orb];
    rewrite Hsender, Huid;
    destruct (appendMessage fmt message (strict_eq sender uid) st) as [[[]|e] st'];
    reflexivity.
Qed.


(** C9, as [apiCall] has it: the body is parsed before the status is
    looked at, so the call throws when [fetch] fails, when the body is not
    JSON, and when the response is not ok; with a parsed body it throws
    exactly when the response is not ok, an [Error] whose message is the
    first truthy one of [data.detail], [data.message] and ['API Error'],
    and otherwise returns the parsed body; the request carries the
    [Authorization] header exactly when [state.token] is truthy. *)
Theorem apiCall_outcomes
    (endpoint method : string) (body : json) (isFormData : bool) (st : State) :
  (forall r : FetchOutcome,
      throws (snd (apiCall endpoint method body isFormData r st)) <->
      r = FetchFailed \/ (exists ok, r = Response ok None) \/
      (exists data, r = Response false data)) /\
  (forall (ok : bool) (data : json),
      throws (snd (apiCall endpoint method body isFormData (Response ok (Some data)) st))
      <-> ok = false) /\
  (forall data : json,
      snd (apiCall endpoint method body isFormData (Response true (Some data)) st)
      = Ok data) /\
  (forall data detail message : json,
      get "detail" data = Ok detail ->
      get "message" data = Ok message ->
      snd (apiCall endpoint method body isFormData (Response false (Some data)) st)
      = Throw (Error (toString (js_or detail (js_or message (JStr "API Error")))))) /\
  header "Authorization" (headers (fst (apiCall endpoint method body isFormData FetchFailed st)))
  = (if truthy (token st) then Some ("Bearer " +:+ toString (token st)) else None) /\
  (forall r r' : FetchOutcome,
      fst (apiCall endpoint method body isFormData r st)
      = fst (apiCall endpoint method body isFormData r' st)).
Proof.
  unfold apiCall, throws. cbn [fst snd].
  split; [|split; [|split; [|split; [|split]]]].
  - intros r. split.
    + intros [e He]. destruct r as [|[|] [data|]]; eauto.
      discriminate.
    + intros [-> | [[ok ->] | [data ->]]]; cbn; eauto.
      destruct data as [data|]; cbn; eauto.
      destruct (get "detail" data) as [d|e]; eauto.
      destruct (truthy d); eauto.
      destruct (get "message" data); eauto.
  - intros ok data. split.
    + intros [e He]. destruct ok; [discriminate | reflexivity].
    + intros ->. cbn.
      destruct (get "detail" data) as [d|e]; eauto.
      destruct (truthy d); eauto.
      destruct (get "message" data); eauto.
  - reflexivity.
  - intros data detail message Hd Hm. cbn. rewrite Hd, Hm.
    unfold js_or. destruct (truthy detail); reflexivity.
  - unfold apiCall_request.
    destruct (truthy (token st)), (truthy body), isFormData; reflexivity.
  - reflexivity.
Qed.

(** *** Handlers that do not touch the connection *)

Create HintDb quiet.

Lemma quiet_step_refl (st : State) : quiet_step st st.
Proof. repeat split. Qed.

Lemma quiet_step_trans (a b c : State) :
  quiet_step a b -> quiet_step b c -> quiet_step a c.
Proof.
  intros (H1 & H2 & H3 & H4) (K1 & K2 & K3 & K4).
  repeat split; congruence.
Qed.

Lemma quiet_ret {A : Type} (a : A) : quiet (ret a).
Proof. intros st. apply quiet_step_refl. Qed.

Lemma quiet_lift {A : Type} (r : result A) : quiet (lift r).
Proof. intros st. apply quiet_step_refl. Qed.

Lemma quiet_gets {A : Type} (f : State -> A) : quiet (gets f).
Proof. intros st. apply quiet_step_refl. Qed.

Lemma quiet_bind {A B : Type} (m : M A) (k : A -> M B) :
  quiet m -> (forall a, quiet (k a)) -> quiet (bind m k).
Proof.
  intros Hm Hk st. unfold bind. specialize (Hm st).
  destruct (m st) as [[a|e] st']; cbn [snd] in *; [|exact Hm].
  eapply quiet_step_trans; [exact Hm | apply Hk].
Qed.

Lemma quiet_try_catch (m : M unit) (h : exn -> M unit) :
  quiet m -> (forall e, quiet (h e)) -> quiet (try_catch m h).
Proof.
  intros Hm Hh st. unfold try_catch. specialize (Hm st).
  destruct (m st) as [[a|e] st']; cbn [snd] in *; [exact Hm|].
  eapply quiet_step_trans; [exact Hm | apply Hh].
Qed.

Lemma quiet_spawn (m : M unit) : quiet m -> quiet (spawn m).
Proof. intros Hm st. apply Hm. Qed.

Lemma quiet_forEach (items : list json) (f : json -> M unit) :
  (forall x, quiet (f x)) -> quiet (forEach items f).
Proof.
  intros Hf. induction items as [|x items IH]; cbn [forEach].
  - apply quiet_ret.
  - apply quiet_bind; [apply Hf | intros _; exact IH].
Qed.

Lemma quiet_js_forEach (v : json) (f : json -> M unit) :
  (forall x, quiet (f x)) -> quiet (js_forEach v f).
Proof.
  intros Hf. destruct v; cbn [js_forEach];
    try apply quiet_lift. now apply quiet_forEach.
Qed.

Lemma reconnects_snoc (tr : list effect) (e : effect) :
  is_reconnect e = false -> reconnects (tr ++ [e]) = reconnects tr.
Proof.
  intros He. unfold reconnects. rewrite List.filter_app. cbn [List.filter].
  rewrite He. apply app_nil_r.
Qed.

Lemma quiet_emit (e : effect) : is_reconnect e = false -> quiet (emit e).
Proof.
  intros He st. unfold emit, modify. cbn [snd].
  unfold quiet_step. destruct st; cbn. repeat split. now apply reconnects_snoc.
Qed.

Ltac quiet_setter :=
  let st := fresh "st" in
  intros st; unfold modify; cbn [snd]; destruct st; repeat split.

Ltac quiet_steps :=
  repeat
    match goal with
    | |- quiet (ret _) => apply quiet_ret
    | |- quiet (lift _) => apply quiet_lift
    | |- quiet (gets _) => apply quiet_gets
    | |- quiet (bind _ _) => apply quiet_bind; [|intros ?]
    | |- quiet (try_catch _ _) => apply quiet_try_catch; [|intros ?]
    | |- quiet (spawn _) => apply quiet_spawn
    | |- quiet (js_forEach _ _) => apply quiet_js_forEach; intros ?
    | |- quiet (emit _) => apply quiet_emit; reflexivity
    | |- quiet (modify _) => solve [quiet_setter]
    | |- quiet (match ?x with _ => _ end) => destruct x
    | |- quiet _ => solve [auto with quiet]
    end.

Lemma quiet_setTimeout_toast (id : nat) (delay : Z) :
  quiet (setTimeout (CbRemoveToast id) delay).
Proof. unfold setTimeout. quiet_steps. Qed.

Lemma quiet_setTimeout_navigate (viewId : string) (delay : Z) :
  quiet (setTimeout (CbNavigate viewId) delay).
Proof. unfold setTimeout. quiet_steps. Qed.

Lemma quiet_showToast (message : toast_text) (type : string) :
  quiet (showToast message type).
Proof. unfold showToast. quiet_steps. apply quiet_setTimeout_toast. Qed.

Lemma quiet_removeToast (id : nat) : quiet (removeToast id).
Proof. unfold removeToast. quiet_steps. Qed.

Lemma quiet_navigate (viewId : string) : quiet (navigate viewId).
Proof. unfold navigate. quiet_steps. Qed.

Lemma quiet_appendMessage (msg : json) (isMe : bool) : quiet (appendMessage fmt msg isMe).
Proof. unfold appendMessage. quiet_steps. Qed.

Lemma quiet_ws_send (sid : nat) (payload : json) : quiet (ws_send sid payload).
Proof. unfold ws_send. quiet_steps. Qed.

Lemma quiet_apiCall_send (endpoint method : string) (body : json) (isFormData : bool) :
  quiet (apiCall_send endpoint method body isFormData).
Proof. unfold apiCall_send. quiet_steps. Qed.

Lemma quiet_renderChatList : quiet renderChatList.
Proof. unfold renderChatList, renderChatItem. quiet_steps. Qed.

#[local] Hint Resolve quiet_showToast quiet_removeToast quiet_navigate quiet_appendMessage
  quiet_ws_send quiet_apiCall_send quiet_renderChatList : quiet.

Lemma quiet_openChat (chatId type title : json) : quiet (openChat chatId type title).
Proof. unfold openChat. quiet_steps. Qed.

Lemma quiet_openChat_resume (r : FetchOutcome) : quiet (openChat_resume fmt r).
Proof. unfold openChat_resume. quiet_steps. Qed.

Lemma quiet_sendMessage (now : string) : quiet (sendMessage fmt now).
Proof. unfold sendMessage. quiet_steps. Qed.

Lemma quiet_handleWsMessage (data : json) : quiet (handleWsMessage fmt data).
Proof. unfold handleWsMessage, new_message_toast. quiet_steps. Qed.

Lemma quiet_loadChats_resume (r : FetchOutcome) : quiet (loadChats_resume r).
Proof. unfold loadChats_resume. quiet_steps. Qed.

Lemma quiet_loadInitialData : quiet loadInitialData.
Proof. unfold loadInitialData, updateUserInfo, loadChats. quiet_steps. Qed.

Lemma quiet_handleContactSubmit_resume (r : FetchOutcome) :
  quiet (handleContactSubmit_resume r).
Proof.
  unfold handleContactSubmit_resume. quiet_steps. apply quiet_setTimeout_navigate.
Qed.

#[local] Hint Resolve quiet_openChat quiet_openChat_resume quiet_sendMessage
  quiet_handleWsMessage quiet_loadChats_resume quiet_loadInitialData : quiet.

(** *** Invariants of the sockets *)

Lemma preserves_bind (P : State -> Prop) {A B : Type} (m : M A) (k : A -> M B) :
  preserves P m -> (forall a, preserves P (k a)) -> preserves P (bind m k).
Proof.
  intros Hm Hk st HP. unfold bind. specialize (Hm st HP).
  destruct (m st) as [[a|e] st']; cbn [snd] in *; [|exact Hm].
  now apply Hk.
Qed.

Lemma preserves_try_catch (P : State -> Prop) (m : M unit) (h : exn -> M unit) :
  preserves P m -> (forall e, preserves P (h e)) -> preserves P (try_catch m h).
Proof.
  intros Hm Hh st HP. unfold try_catch. specialize (Hm st HP).
  destruct (m st) as [[a|e] st']; cbn [snd] in *; [exact Hm|].
  now apply Hh.
Qed.

Lemma live_drop (w : WebSocket) : live (start_closing (set_onclose false w)) = false.
Proof. destruct w as [[] b t]; reflexivity. Qed.

Lemma drop_socket_lookup (sid j : nat) (l : list WebSocket) (w : WebSocket) :
  drop_socket sid l !! j = Some w ->
  (j = sid /\ live w = false) \/ (j <> sid /\ l !! j = Some w).
Proof.
  unfold drop_socket. intros H. destruct (decide (j = sid)) as [->|Hne].
  - left. split; [reflexivity|].
    rewrite !list_lookup_alter_eq in H.
    destruct (l !! sid) as [w0|]; [|discriminate].
    cbn in H. injection H as <-. apply live_drop.
  - right. split; [assumption|].
    rewrite !list_lookup_alter_ne in H by congruence. exact H.
Qed.

Lemma drop_socket_length (sid : nat) (l : list WebSocket) :
  length (drop_socket sid l) = length l.
Proof. unfold drop_socket. now rewrite !length_alter. Qed.

Lemma connectWebSocket_skips (st : State) :
  unusable_token (token st) = true -> connectWebSocket st = (Ok tt, st).
Proof.
  unfold unusable_token, connectWebSocket, bind, gets. intros ->. reflexivity.
Qed.

Lemma connectWebSocket_connects (st : State) :
  unusable_token (token st) = false ->
  let st' := snd (connectWebSocket st) in
  sockets st' =
    match socket st with
    | Some sid => drop_socket sid (sockets st)
    | None => sockets st
    end ++ [mkWebSocket CONNECTING true (toString (token st))] /\
  socket st' = Some (length (sockets st)) /\
  token st' = token st /\
  timers st' = timers st /\
  trace st' =
    trace st ++
      match socket st with Some sid => [WsClose sid] | None => [] end ++
      [NewWebSocket (length (sockets st)) (toString (token st))].
Proof.
  unfold unusable_token, connectWebSocket, bind, gets. intros ->.
  destruct st as [tok usr chats active [sid|] lt lu socks tm tr v s t un mi cs ma cl ts nt];
    cbn -[alter].
  - unfold drop_socket. rewrite !length_alter, <- app_assoc. repeat split.
  - repeat split.
Qed.

Lemma handleLogout_spec (st : State) :
  let st' := snd (handleLogout st) in
  token st' = JNull /\ user st' = JNull /\ socket st' = None /\
  sockets st' =
    match socket st with
    | Some sid => drop_socket sid (sockets st)
    | None => sockets st
    end /\
  timers st' = timers st /\
  trace st' = trace st ++ match socket st with Some sid => [WsClose sid] | None => [] end.
Proof.
  unfold handleLogout, bind, gets.
  destruct st as [tok usr chats active [sid|] lt lu socks tm tr v s t un mi cs ma cl ts nt];
    cbn -[alter]; repeat split. now rewrite app_nil_r.
Qed.

(** A property of [state.socket] and of the sockets that
    [connectWebSocket], [handleLogout], the opening and the closing of a
    socket keep is kept by every event, hence holds of every reachable
    state once it holds when the script is loaded. *)
Section Invariant.

Variable P : State -> Prop.

Hypothesis P_frame :
  forall st st', socket st' = socket st -> sockets st' = sockets st -> P st -> P st'.
Hypothesis P_connect : preserves P connectWebSocket.
Hypothesis P_logout : preserves P handleLogout.
Hypothesis P_opened :
  forall st sid w,
    sockets st !! sid = Some w -> readyState w = CONNECTING -> P st ->
    P (snd (update_socket sid (set_readyState OPEN) st)).
Hypothesis P_closed :
  forall st sid w,
    sockets st !! sid = Some w -> P st ->
    P (snd (update_socket sid (set_readyState CLOSED) st)).
Hypothesis P_initial : forall tok usr, P (initial tok usr).

Lemma preserves_quiet {A : Type} (m : M A) : quiet m -> preserves P m.
Proof. intros Hq st. destruct (Hq st) as (_ & Hs & Hl & _). now apply P_frame. Qed.

Lemma preserves_modify (f : State -> State) :
  (forall st, socket (f st) = socket st /\ sockets (f st) = sockets st) ->
  preserves P (modify f).
Proof. intros Hf st. destruct (Hf st). now apply P_frame. Qed.

Ltac preserves_steps :=
  repeat
    match goal with
    | |- preserves _ (bind _ _) => apply preserves_bind; [|intros ?]
    | |- preserves _ (try_catch _ _) => apply preserves_try_catch; [|intros ?]
    | |- preserves _ (ret _) => apply preserves_quiet, quiet_ret
    | |- preserves _ (modify _) =>
        solve [apply preserves_modify; intros ?; split; reflexivity]
    | |- preserves _ (emit _) =>
        solve [apply preserves_modify; intros ?; split; reflexivity]
    | |- preserves _ (setTimeout _ _) => unfold setTimeout
    | |- preserves _ connectWebSocket => apply P_connect
    | |- preserves _ handleLogout => apply P_logout
    | |- preserves _ (match ?x with _ => _ end) => destruct x
    | |- preserves _ _ => solve [apply preserves_quiet; quiet_steps]
    end.

Lemma preserves_handleLogin_resume (greeting : string) (r : FetchOutcome) :
  preserves P (handleLogin_resume greeting r).
Proof. unfold handleLogin_resume. preserves_steps. Qed.

Lemma preserves_onclose_handler : preserves P onclose_handler.
Proof. unfold onclose_handler. preserves_steps. Qed.

Lemma preserves_onopen : preserves P onopen.
Proof. apply preserves_quiet. unfold onopen. quiet_steps. Qed.

Lemma preserves_boot : preserves P boot.
Proof. unfold boot. preserves_steps. Qed.

Lemma step_preserves (ev : event) (st : State) : P st -> P (step fmt ev st).
Proof.
  intros Hinv. destruct ev; cbn [step].
  - revert Hinv. now apply P_frame.
  - now apply preserves_quiet; [apply quiet_sendMessage|].
  - destruct (chat_list st !! i); [|assumption].
    apply preserves_quiet; [quiet_steps | assumption].
  - now apply P_logout.
  - now apply preserves_handleLogin_resume.
  - now apply preserves_quiet; [apply quiet_loadChats_resume|].
  - now apply preserves_quiet; [apply quiet_openChat_resume|].
  - destruct (sockets st !! sid) as [w|] eqn:Hw; [|assumption].
    destruct (readyState w) eqn:Hr; try assumption.
    unfold exec, bind; cbn [update_socket modify snd fst].
    apply preserves_onopen. exact (P_opened st sid w Hw Hr Hinv).
  - destruct (sockets st !! sid) as [w|]; [|assumption].
    destruct (readyState w), data; try assumption;
      (apply preserves_quiet; [apply quiet_handleWsMessage | assumption]).
  - destruct (sockets st !! sid) as [w|] eqn:Hw; [|assumption].
    pose proof (P_closed st sid w Hw Hinv) as Hupd.
    destruct (readyState w); try assumption;
      unfold exec, bind; cbn [update_socket modify snd fst];
      destruct (onclose w); try exact Hupd;
      apply preserves_onclose_handler; exact Hupd.
  - destruct (timers st !! i) as [[delay cb]|]; [|assumption].
    unfold exec. revert st Hinv. change (preserves P
      (modify (fun s => set_timers (take i (timers s) ++ drop (S i) (timers s)) s);;
       run_callback cb)).
    destruct cb; cbn [run_callback]; preserves_steps.
  - now apply preserves_quiet; [apply quiet_navigate|].
  - now apply preserves_quiet; [apply quiet_openChat|].
  - now apply preserves_quiet; [apply quiet_apiCall_send|].
  - now apply preserves_quiet; [apply quiet_showToast|].
  - now apply preserves_quiet; [apply quiet_handleContactSubmit_resume|].
Qed.

Lemma reachable_preserves (st : State) : reachable fmt st -> P st.
Proof.
  induction 1 as [tok usr | ev st _ IH].
  - apply preserves_boot, P_initial.
  - now apply step_preserves.
Qed.

End Invariant.

(** Every live socket is [state.socket]. *)

Lemma current_socket_only_connect : preserves current_socket_only connectWebSocket.
Proof.
  intros st Hinv.
  destruct (unusable_token (token st)) eqn:Htok.
  - now rewrite connectWebSocket_skips.
  - destruct (connectWebSocket_connects st Htok) as (Hsocks & Hsock & _).
    intros j w Hj Hlive. rewrite Hsock. rewrite Hsocks in Hj.
    assert (Hlen : length (match socket st with
                           | Some sid => drop_socket sid (sockets st)
                           | None => sockets st
                           end) = length (sockets st))
      by (destruct (socket st); [apply drop_socket_length | reflexivity]).
    destruct (decide (j < length (sockets st))) as [Hlt|Hge].
    + exfalso. rewrite lookup_app_l in Hj by lia.
      destruct (socket st) as [sid|] eqn:Hs.
      * apply drop_socket_lookup in Hj as [[_ Hdead] | [Hne Hold]]; [congruence|].
        specialize (Hinv j w Hold Hlive). congruence.
      * specialize (Hinv j w Hj Hlive). congruence.
    + apply lookup_lt_Some in Hj. rewrite length_app, Hlen in Hj. cbn in Hj.
      f_equal. lia.
Qed.

Lemma handleLogout_logged_out (st : State) :
  current_socket_only st -> logged_out (snd (handleLogout st)).
Proof.
  intros Hinv. destruct (handleLogout_spec st) as (Htok & _ & Hsock & Hsocks & _).
  split; [now rewrite Htok|]. split; [exact Hsock|].
  intros j w. rewrite Hsocks. intros Hj.
  destruct (live w) eqn:Hlive; [exfalso | reflexivity].
  destruct (socket st) as [sid|] eqn:Hs.
  - apply drop_socket_lookup in Hj as [[_ Hdead] | [Hne Hold]]; [congruence|].
    specialize (Hinv j w Hold Hlive). congruence.
  - specialize (Hinv j w Hj Hlive). congruence.
Qed.

Lemma logged_out_current_socket_only (st : State) :
  logged_out st -> current_socket_only st.
Proof. intros (_ & _ & Hdead) j w Hj Hlive. specialize (Hdead j w Hj). congruence. Qed.

Lemma current_socket_only_alter (f : WebSocket -> WebSocket) (sid : nat) (st : State) :
  (forall w, sockets st !! sid = Some w -> live (f w) = true -> live w = true) ->
  current_socket_only st ->
  current_socket_only (snd (update_socket sid f st)).
Proof.
  intros Hf Hinv j w.
  unfold update_socket, modify. cbn [snd].
  replace (socket (set_sockets (alter f sid (sockets st)) st)) with (socket st)
    by (destruct st; reflexivity).
  replace (sockets (set_sockets (alter f sid (sockets st)) st))
    with (alter f sid (sockets st)) by (destruct st; reflexivity).
  destruct (decide (sid = j)) as [->|Hne].
  - rewrite list_lookup_alter_eq. destruct (sockets st !! j) as [w0|] eqn:Hw; [|discriminate].
    cbn. intros [= <-] Hlive. eapply Hinv; eauto.
  - rewrite list_lookup_alter_ne by assumption. apply Hinv.
Qed.

Lemma reachable_current_socket_only (st : State) :
  reachable fmt st -> current_socket_only st.
Proof.
  apply reachable_preserves.
  - intros s s' Hs Hl H j w. rewrite Hs, Hl. apply H.
  - exact current_socket_only_connect.
  - intros s H. now apply logged_out_current_socket_only, handleLogout_logged_out.
  - intros s sid w Hw Hr H. apply current_socket_only_alter; [|assumption].
    intros w0 Hw0 _. rewrite Hw in Hw0. injection Hw0 as <-.
    unfold live. rewrite Hr. apply orb_true_r.
  - intros s sid w _ H. apply current_socket_only_alter; [|assumption].
    intros w0 _. destruct w0 as [[] [] t]; cbn; congruence.
  - intros tok usr j w Hj. discriminate Hj.
Qed.

(** [state.socket] has its [onclose] handler installed. *)

Lemma current_socket_listens_connect : preserves current_socket_listens connectWebSocket.
Proof.
  intros st Hinv.
  destruct (unusable_token (token st)) eqn:Htok.
  - now rewrite connectWebSocket_skips.
  - destruct (connectWebSocket_connects st Htok) as (Hsocks & Hsock & _).
    intros j. rewrite Hsock, Hsocks. intros [= <-].
    exists (mkWebSocket CONNECTING true (toString (token st))). split; [|reflexivity].
    assert (Hlen : length (match socket st with
                           | Some sid => drop_socket sid (sockets st)
                           | None => sockets st
                           end) = length (sockets st))
      by (destruct (socket st); [apply drop_socket_length | reflexivity]).
    rewrite lookup_app_r by lia. rewrite Hlen, Nat.sub_diag. reflexivity.
Qed.

Lemma current_socket_listens_alter (r : ReadyState) (sid : nat) (st : State) :
  current_socket_listens st ->
  current_socket_listens (snd (update_socket sid (set_readyState r) st)).
Proof.
  intros Hinv j Hj. destruct (Hinv j Hj) as (w & Hw & Hoc).
  unfold update_socket, modify. cbn [snd set_sockets sockets].
  destruct (decide (sid = j)) as [->|Hne].
  - exists (set_readyState r w). rewrite list_lookup_alter_eq, Hw. split; [reflexivity | exact Hoc].
  - exists w. rewrite list_lookup_alter_ne by assumption. split; assumption.
Qed.

Lemma reachable_current_socket_listens (st : State) :
  reachable fmt st -> current_socket_listens st.
Proof.
  apply reachable_preserves.
  - intros s s' Hs Hl H j. rewrite Hs, Hl. apply H.
  - exact current_socket_listens_connect.
  - intros s _ j Hj. destruct (handleLogout_spec s) as (_ & _ & Hs & _). congruence.
  - intros s sid w _ _ H. now apply current_socket_listens_alter.
  - intros s sid w _ H. now apply current_socket_listens_alter.
  - intros tok usr j Hj. discriminate Hj.
Qed.

(** *** After a logout *)

Lemma logged_out_quiet_step (st st' : State) :
  quiet_step st st' -> logged_out st ->
  logged_out st' /\ reconnects (trace st') = reconnects (trace st).
Proof.
  intros (Ht & Hs & Hl & Hr) (H1 & H2 & H3).
  split; [|exact Hr]. unfold logged_out. rewrite Ht, Hs, Hl. auto.
Qed.

Lemma dead_not_connecting (w : WebSocket) :
  live w = false ->
  onclose w = false /\ (readyState w = CLOSING \/ readyState w = CLOSED).
Proof. destruct w as [[] [] t]; cbn; intros H; try discriminate; auto. Qed.

Lemma step_logged_out (ev : event) (st : State) :
  is_login ev = false -> logged_out st ->
  logged_out (step fmt ev st) /\
  reconnects (trace (step fmt ev st)) = reconnects (trace st).
Proof.
  intros Hev Hout. pose proof Hout as (Htok & Hsock & Hdead).
  destruct ev; try discriminate; cbn [step].
  - apply logged_out_quiet_step; [|assumption]. destruct st; repeat split.
  - apply logged_out_quiet_step; [apply quiet_sendMessage | assumption].
  - destruct (chat_list st !! i); [|auto].
    apply logged_out_quiet_step; [|assumption]. unfold exec.
    generalize st. change (quiet (id <- lift (get "id" (li_chat c)) ;;
                                  other <- lift (get "other_participant" (li_chat c)) ;;
                                  openChat id (JStr "private") other)).
    quiet_steps.
  - destruct (handleLogout_spec st) as (Ht & _ & Hs & Hl & _ & Hr).
    unfold exec. rewrite Hsock in Hl, Hr. rewrite app_nil_r in Hr.
    split; [|now rewrite Hr].
    unfold logged_out. rewrite Ht, Hs, Hl. auto.
  - apply logged_out_quiet_step; [apply quiet_loadChats_resume | assumption].
  - apply logged_out_quiet_step; [apply quiet_openChat_resume | assumption].
  - destruct (sockets st !! sid) as [w|] eqn:Hw; [|auto].
    destruct (dead_not_connecting w (Hdead _ _ Hw)) as [_ [-> | ->]]; auto.
  - destruct (sockets st !! sid) as [w|] eqn:Hw; [|auto].
    destruct (dead_not_connecting w (Hdead _ _ Hw)) as [_ [-> | ->]]; auto.
  - destruct (sockets st !! sid) as [w|] eqn:Hw; [|auto].
    destruct (dead_not_connecting w (Hdead _ _ Hw)) as [Hoc [Hr | Hr]];
      rewrite Hr; [|auto].
    rewrite Hoc. unfold exec, bind, update_socket, modify, ret. cbn [fst snd].
    split; [|destruct st; reflexivity].
    unfold logged_out.
    replace (token (set_sockets _ st)) with (token st) by (destruct st; reflexivity).
    replace (socket (set_sockets _ st)) with (socket st) by (destruct st; reflexivity).
    replace (sockets (set_sockets (alter (set_readyState CLOSED) sid (sockets st)) st))
      with (alter (set_readyState CLOSED) sid (sockets st)) by (destruct st; reflexivity).
    repeat split; try assumption.
    intros j w0 Hj. destruct (decide (sid = j)) as [<-|Hne].
    + rewrite list_lookup_alter_eq, Hw in Hj. cbn in Hj. injection Hj as <-.
      unfold live. cbn. now rewrite Hoc.
    + rewrite list_lookup_alter_ne in Hj by assumption. eauto.
  - destruct (timers st !! i) as [[delay cb]|]; [|auto].
    unfold exec, bind, modify. cbn [fst snd].
    set (st0 := set_timers _ st).
    assert (Hq : quiet_step st st0) by (subst st0; destruct st; repeat split).
    destruct (logged_out_quiet_step _ _ Hq Hout) as [Hout0 Hr0].
    destruct cb; cbn [run_callback].
    + rewrite connectWebSocket_skips; [auto|].
      unfold unusable_token. destruct Hout0 as (-> & _). reflexivity.
    + destruct (logged_out_quiet_step st0 (snd (removeToast id st0))
                  (quiet_removeToast id st0) Hout0) as [H1 H2].
      split; [exact H1 | congruence].
    + destruct (logged_out_quiet_step st0 (snd (navigate viewId st0))
                  (quiet_navigate viewId st0) Hout0) as [H1 H2].
      split; [exact H1 | congruence].
  - apply logged_out_quiet_step; [apply quiet_navigate | assumption].
  - apply logged_out_quiet_step; [apply quiet_openChat | assumption].
  - apply logged_out_quiet_step; [apply quiet_apiCall_send | assumption].
  - apply logged_out_quiet_step; [apply quiet_showToast | assumption].
  - apply logged_out_quiet_step; [apply quiet_handleContactSubmit_resume | assumption].
Qed.

Lemma run_logged_out (evs : list event) (st : State) :
  Forall (fun ev => is_login ev = false) evs -> logged_out st ->
  logged_out (run fmt evs st) /\
  reconnects (trace (run fmt evs st)) = reconnects (trace st).
Proof.
  intros Hevs. revert st. induction Hevs as [|ev evs Hev _ IH]; intros st Hout.
  - auto.
  - cbn [run]. destruct (step_logged_out ev st Hev Hout) as [H1 H2].
    destruct (IH _ H1) as [H3 H4]. split; [exact H3 | congruence].
Qed.

(** C5: a logout clears the token, the user and the socket, performs no
    reconnecting effect itself, and as long as nobody logs in again no
    event makes the client schedule a reconnection or construct a socket,
    pending timeouts and late socket events included; whereas the socket
    of the client has its [onclose] handler installed, and its close
    schedules one call of [connectWebSocket] after 3000 ms when the token
    is truthy, and none when it is not. *)
Theorem logout_cancels_reconnect :
  (forall st : State,
      reachable fmt st ->
      let st1 := step fmt ClickLogout st in
      token st1 = JNull /\ user st1 = JNull /\ socket st1 = None /\
      reconnects (trace st1) = reconnects (trace st) /\
      forall evs : list event,
        Forall (fun ev => is_login ev = false) evs ->
        reconnects (trace (run fmt evs st1)) = reconnects (trace st1)) /\
  (forall (st : State) (sid : nat),
      reachable fmt st -> socket st = Some sid ->
      exists w : WebSocket,
        sockets st !! sid = Some w /\ onclose w = true /\
        (readyState w <> CLOSED ->
         let st' := step fmt (WsClosed sid) st in
         if truthy (token st)
         then trace st' =
                trace st ++ [ConsoleLog "WS Disconnected";
                             SetTimeout CbConnectWebSocket 3000] /\
              timers st' = timers st ++ [(3000%Z, CbConnectWebSocket)]
         else trace st' = trace st ++ [ConsoleLog "WS Disconnected"] /\
              timers st' = timers st)).
Proof.
  split.
  - intros st Hreach st1.
    pose proof (reachable_current_socket_only st Hreach) as Hinv.
    destruct (handleLogout_spec st) as (Ht & Hu & Hs & Hl & _ & Hr).
    pose proof (handleLogout_logged_out st Hinv) as Hout.
    subst st1. cbn [step]. unfold exec.
    split; [exact Ht|]. split; [exact Hu|]. split; [exact Hs|]. split.
    + rewrite Hr. unfold reconnects. rewrite List.filter_app.
      destruct (socket st); cbn; now rewrite app_nil_r.
    + intros evs Hevs. now apply run_logged_out.
  - intros st sid Hreach Hsock.
    destruct (reachable_current_socket_listens st Hreach sid Hsock) as (w & Hw & Hoc).
    exists w. split; [exact Hw|]. split; [exact Hoc|].
    intros Hr st'. subst st'. cbn [step]. rewrite Hw, Hoc.
    unfold exec, onclose_handler, setTimeout, bind, update_socket, emit, modify, gets, ret.
    destruct (readyState w); try congruence;
      destruct st as [tok usr chats active sk lt lu socks tm tr v s t un mi cs ma cl ts nt];
      cbn -[alter]; destruct (truthy tok); cbn -[alter];
      rewrite <- ?app_assoc; split; reflexivity.
Qed.

(** *** Reconnection with an active chat *)

Lemma renderChatItem_ok (chat : json) (st : State) :
  chat_renders chat = true ->
  exists item,
    renderChatItem chat st = (Ok tt, set_chat_list (chat_list st ++ [item]) st).
Proof.
  unfold chat_renders, renderChatItem, bind, gets, lift, modify, ret. intros H.
  destruct chat; try discriminate H; cbn [get] in *;
    destruct (activeChat st);
    (destruct (get0 _) as [[]|]; try discriminate H; eexists; reflexivity).
Qed.

Lemma forEach_renderChatItem_ok (chats : list json) (st : State) :
  forallb chat_renders chats = true ->
  exists items,
    forEach chats renderChatItem st = (Ok tt, set_chat_list (chat_list st ++ items) st).
Proof.
  revert st. induction chats as [|chat chats IH]; intros st H.
  - exists []. cbn. rewrite app_nil_r. destruct st; reflexivity.
  - cbn [forallb] in H. apply andb_true_iff in H as [Hc Hrest].
    destruct (renderChatItem_ok chat st Hc) as [item Hitem].
    destruct (IH (set_chat_list (chat_list st ++ [item]) st) Hrest) as [items Hitems].
    exists (item :: items). cbn [forEach]. unfold bind. rewrite Hitem, Hitems.
    destruct st; cbn. now rewrite <- app_assoc.
Qed.

Lemma renderChatList_ok (st : State) :
  chat_list_renders st = true ->
  exists items, renderChatList st = (Ok tt, set_chat_list items st).
Proof.
  unfold chat_list_renders, renderChatList, bind, gets, modify. intros H.
  cbn [fst snd].
  replace (privateChats (set_chat_list [] st)) with (privateChats st)
    by (destruct st; reflexivity).
  destruct (privateChats st) as [| | | | |chats|]; try discriminate H.
  cbn [js_forEach].
  destruct (forEach_renderChatItem_ok chats (set_chat_list [] st) H) as [items ->].
  exists items. destruct st; reflexivity.
Qed.

Lemma openChat_joins_then_reads (chat : ActiveChat) (title : json) (st : State) (sid : nat) :
  chat_list_renders st = true ->
  open_socket st = Some sid ->
  exists items,
    openChat (chat_id chat) (chat_type chat) title st =
      (Ok tt,
       set_trace
         (trace st ++
            [WsSend sid (join_frame chat);
             Fetch (apiCall_request (history_endpoint chat) "GET" JNull false st)])
         (set_chat_list items
            (set_messages_area []
               (set_title (dom_text title)
                  (set_chat_shown true (set_activeChat (Some chat) st)))))).
Proof.
  intros Hrender Hopen. unfold openChat.
  unfold bind at 1. unfold modify at 1. cbn [fst snd].
  unfold bind at 1. unfold modify at 1. cbn [fst snd].
  unfold bind at 1. unfold modify at 1. cbn [fst snd].
  unfold bind at 1. unfold modify at 1. cbn [fst snd].
  set (st0 := set_messages_area [] _).
  assert (Hrender0 : chat_list_renders st0 = true)
    by (subst st0; destruct st; exact Hrender).
  destruct (renderChatList_ok st0 Hrender0) as [items Hitems].
  exists items.
  unfold bind at 1. rewrite Hitems.
  assert (Hopen0 : open_socket (set_chat_list items st0) = Some sid)
    by (subst st0; destruct st; exact Hopen).
  unfold bind at 1. unfold gets at 1. rewrite Hopen0.
  unfold history_endpoint, join_frame, apiCall_send, ws_send, emit, bind, gets, modify.
  cbn [fst snd]. subst st0.
  destruct chat as [cid ctype].
  destruct st; cbn. now rewrite <- app_assoc.
Qed.

End ClientFacts.

(** ** The session as an instance of each property *)

Lemma reachable_run (fmt : json -> string) (evs : list event) (st : State) :
  reachable fmt st -> reachable fmt (run fmt evs st).
Proof.
  revert st. induction evs as [|ev evs IH]; intros st H; [exact H|].
  cbn [run]. apply IH. now constructor.
Qed.

Lemma start_reachable : reachable Session.hh_mm Session.start.
Proof. constructor. Qed.

Lemma chatting_reachable : reachable Session.hh_mm Session.chatting.
Proof. apply reachable_run, start_reachable. Qed.

Lemma offline_reachable : reachable Session.hh_mm Session.offline.
Proof. apply reachable_run, chatting_reachable. Qed.



(** Ann logs out while the reconnect scheduled by the drop of her socket is
    pending: the timeout fires and nothing reconnects.  The drop itself had
    scheduled that one reconnect. *)
Lemma logout_cancels_reconnect_session :
  let st1 := step Session.hh_mm ClickLogout Session.offline in
  (token st1 = JNull /\ user st1 = JNull /\ socket st1 = None /\
   reconnects (trace (run Session.hh_mm [TimerFired 0; WsClosed 0; Submit "now"] st1))
   = reconnects (trace Session.offline)) /\
  trace Session.offline =
    trace Session.chatting ++
      [ConsoleLog "WS Disconnected"; SetTimeout CbConnectWebSocket 3000] /\
  timers Session.offline = timers Session.chatting ++ [(3000%Z, CbConnectWebSocket)].
Proof.
  destruct (logout_cancels_reconnect Session.hh_mm) as [Hlogout Hclose].
  split.
  - destruct (Hlogout Session.offline offline_reachable) as (Ht & Hu & Hs & Hr & Hnever).
    split; [exact Ht|]. split; [exact Hu|]. split; [exact Hs|].
    rewrite <- Hr. apply Hnever. repeat constructor.
  - destruct (Hclose Session.chatting 0 chatting_reachable eq_refl)
      as (w & Hw & _ & Hschedule).
    injection Hw as <-. apply Hschedule. discriminate.
Defined.


(** A refused login: the error carries [detail], or [message] when
    [detail] is empty. *)
Lemma apiCall_outcomes_session :
  snd (apiCall "/api/auth/login" "POST" (JObj [("nick_name", JStr "ann")]) false
         (Response false (Some (JObj [("detail", JStr "Incorrect password")])))
         Session.start)
  = Throw (Error "Incorrect password") /\
  snd (apiCall "/api/auth/login" "POST" (JObj [("nick_name", JStr "ann")]) false
         (Response false (Some (JObj [("detail", JStr ""); ("message", JStr "busy")])))
         Session.start)
  = Throw (Error "busy").
Proof.
  destruct (apiCall_outcomes "/api/auth/login" "POST" (JObj [("nick_name", JStr "ann")])
              false Session.start) as (_ & _ & _ & Hmessage & _).
  split.
  - exact (Hmessage (JObj [("detail", JStr "Incorrect password")])
             (JStr "Incorrect password") JUndefined eq_refl eq_refl).
  - exact (Hmessage (JObj [("detail", JStr ""); ("message", JStr "busy")])
             (JStr "") (JStr "busy") eq_refl eq_refl).
Defined.

(** Before a chat is open a submit does nothing; while offline it shows
    the toast. *)
Lemma sendMessage_guards_session :
  sendMessage Session.hh_mm "now" Session.start = (Ok tt, Session.start) /\
  exists st',
    sendMessage Session.hh_mm "now" Session.offline = (Ok tt, st') /\
    messages_area st' = messages_area Session.offline /\
    trace st' = trace Session.offline ++ [SetTimeout (CbRemoveToast 0) 3000].
Proof.
  split.
  - apply (sendMessage_guards Session.hh_mm "now" Session.start). left. reflexivity.
  - destruct (proj2 (sendMessage_guards Session.hh_mm "now" Session.offline))
      as (st' & Hrun & _ & Harea & _ & _ & Htrace).
    + discriminate.
    + vm_compute. discriminate.
    + right. exists 0, (mkWebSocket CLOSED true "jwt"). repeat split. discriminate.
    + exists st'. repeat split; assumption.
Defined.

(** C9 fails as stated: a response that is ok but whose body is not JSON
    makes [apiCall] throw, because the body is parsed before the status is
    looked at. *)
Lemma ok_response_without_json_throws : ~ answers_by_status true None.
Proof.
  unfold answers_by_status, throws. intros H. apply H.
  exists SyntaxError. reflexivity.
Qed.

(** The same parse decides the error of a response that is not ok: a 500
    with a plain-text body is reported as the parser's error. *)
Example plain_text_error_body :
  apiCall_response (Response false None) = Throw SyntaxError.
Proof. reflexivity. Qed.

(** ** The router *)

Module RouterFacts.
Import Router.

Lemma log_with_subscriptions s r c : log r (with_subscriptions s c) = log r c.
Proof. reflexivity. Qed.

(** *** join and leave *)

Lemma join_twice (h : ConnectionHandle) (r : RoomId) (c : Core) :
  join h r (snd (join h r c)) = join h r c.
Proof.
  unfold join.
  destruct (registry c !! h) as [identity|] eqn:Hreg; cbn [snd]; [|now rewrite Hreg].
  destruct (decide (identity ∈ membersOf r c)) as [Hin|Hout]; cbn [snd].
  - cbn [registry with_subscriptions]. rewrite Hreg.
    unfold membersOf. cbn [directory with_subscriptions].
    fold (membersOf r c). rewrite decide_True by assumption.
    f_equal. unfold with_subscriptions, subscribed. cbn.
    f_equal. rewrite lookup_insert_eq. cbn.
    rewrite insert_insert_eq. f_equal.
    now rewrite (assoc_L (∪)), (idemp_L (∪)).
  - rewrite Hreg. now rewrite decide_False by assumption.
Qed.

Lemma leave_twice (h : ConnectionHandle) (r : RoomId) (c : Core) :
  leave h r (snd (leave h r c)) = leave h r c.
Proof.
  unfold leave.
  destruct (subscriptions c !! h) as [rooms|] eqn:Hsub; cbn [snd]; [|now rewrite Hsub].
  cbn [subscriptions with_subscriptions]. rewrite lookup_insert_eq.
  f_equal. unfold with_subscriptions. cbn. f_equal.
  rewrite insert_insert_eq. f_equal. apply difference_twice_L.
Qed.

(** C7: a second [join] of the same connection and room answers as the
    first did and leaves the state the first left, and a member's join
    succeeds both times; [leave] always succeeds and a second [leave]
    changes nothing. *)
Theorem join_leave_idempotent (h : ConnectionHandle) (r : RoomId) (c : Core) :
  (snd (join h r (snd (join h r c))) = snd (join h r c) /\
   fst (join h r (snd (join h r c))) = fst (join h r c) /\
   (forall identity : Identity,
       registry c !! h = Some identity -> identity ∈ membersOf r c ->
       fst (join h r c) = Success tt /\
       fst (join h r (snd (join h r c))) = Success tt /\
       r ∈ subscribed h (snd (join h r c)))) /\
  (snd (leave h r (snd (leave h r c))) = snd (leave h r c) /\
   fst (leave h r c) = Success tt /\
   fst (leave h r (snd (leave h r c))) = Success tt /\
   r ∉ subscribed h (snd (leave h r c))).
Proof.
  split.
  - rewrite join_twice. split; [reflexivity|]. split; [reflexivity|].
    intros identity Hreg Hin. unfold join. rewrite Hreg.
    rewrite decide_True by assumption. cbn.
    split; [reflexivity|]. split; [reflexivity|].
    unfold subscribed. cbn. rewrite lookup_insert_eq. cbn.
    apply elem_of_union_l, elem_of_singleton. reflexivity.
  - rewrite leave_twice. split; [reflexivity|].
    unfold leave, subscribed.
    destruct (subscriptions c !! h) as [rooms|] eqn:Hsub; cbn.
    + rewrite lookup_insert_eq. cbn. repeat split.
      intros [_ H]%elem_of_difference. apply H, elem_of_singleton. reflexivity.
    + rewrite Hsub. cbn. repeat split. apply not_elem_of_empty.
Qed.

(** *** route *)

(** C4: a content longer than [MAX_MESSAGE_LENGTH], which is 10000, is
    refused with [MessageTooLarge] whoever sends it and whether or not the
    store is up; the core is left exactly as it was, the count of store
    appends included, so no persistence was attempted.  Nothing shorter
    is refused for its length. *)
Theorem oversized_message_refused
    (up : bool) (from : Identity) (r : RoomId) (text : string) (time : Z) (c : Core) :
  Settings.MAX_MESSAGE_LENGTH = 10000%Z /\
  ((10000 < Z.of_nat (String.length text))%Z ->
   route up from r text time c = (Failure MessageTooLarge, c) /\
   append_calls (snd (route up from r text time c)) = append_calls c) /\
  (fst (route up from r text time c) = Failure MessageTooLarge ->
   (10000 < Z.of_nat (String.length text))%Z).
Proof.
  split; [reflexivity|]. unfold route, Settings.MAX_MESSAGE_LENGTH. split.
  - intros Hlong. rewrite decide_True by assumption. split; reflexivity.
  - destruct (decide (10000 < Z.of_nat (String.length text))%Z); [trivial|].
    destruct (decide (from ∈ membersOf r c)); [|discriminate].
    unfold append. destruct up; discriminate.
Qed.

(** C3: when the store refuses the append of a send that passed the
    checks, [route] answers [StoreError]; the directory, the registry,
    the subscriptions, the logs and the deliveries are as before, so that
    no read sees anything of the send; and the same send retried once the
    store is up is accepted with the next sequence number of the room. *)
Theorem store_failure_then_retry
    (from : Identity) (r : RoomId) (text : string) (time time' : Z) (c : Core) :
  (Z.of_nat (String.length text) <= Settings.MAX_MESSAGE_LENGTH)%Z ->
  from ∈ membersOf r c ->
  exists c',
    route false from r text time c = (Failure StoreError, c') /\
    (directory c' = directory c /\ registry c' = registry c /\
     subscriptions c' = subscriptions c /\ store c' = store c /\
     deliveries c' = deliveries c) /\
    (forall (r0 : RoomId) (limit : nat),
        recentMessages r0 limit c' = recentMessages r0 limit c) /\
    exists m c'',
      route true from r text time' c' = (Success m, c'') /\
      sequence m = S (length (log r c)) /\
      content m = text /\ sender m = from /\ room_id m = r /\
      log r c'' = log r c ++ [m].
Proof.
  intros Hlen Hin. unfold route.
  rewrite decide_False by lia. rewrite decide_True by assumption.
  cbn [append]. eexists. split; [reflexivity|].
  split; [repeat split|]. split; [reflexivity|].
  cbn [directory capacity registry subscriptions store append_calls deliveries].
  rewrite decide_False by lia.
  unfold membersOf at 1. cbn [directory]. fold (membersOf r c).
  rewrite decide_True by assumption.
  eexists. eexists. split; [reflexivity|].
  repeat split. unfold log, deliver. cbn. now rewrite lookup_insert_eq.
Qed.

(** *** The order of a room *)

(** What a call of [route] does to the log of a room. *)
Lemma route_log (up : bool) (from : Identity) (r' : RoomId) (text : string)
    (time : Z) (c : Core) (r : RoomId) :
  match route up from r' text time c with
  | (Success m, c') =>
      sequence m = S (length (log r' c)) /\
      log r c' = if decide (r' = r) then log r c ++ [m] else log r c
  | (Failure _, c') => log r c' = log r c
  end.
Proof.
  unfold route.
  destruct (decide (Settings.MAX_MESSAGE_LENGTH < Z.of_nat (String.length text))%Z);
    [reflexivity|].
  destruct (decide (from ∈ membersOf r' c)); [|reflexivity].
  unfold append. destruct up; [|reflexivity].
  split; [reflexivity|].
  unfold log, deliver. cbn.
  destruct (decide (r' = r)) as [->|Hne].
  - now rewrite lookup_insert_eq.
  - now rewrite lookup_insert_ne.
Qed.

Lemma apply_log (o : op) (c : Core) (r : RoomId) :
  match o with
  | Route up from r' text time => True
  | _ => log r (apply o c) = log r c
  end.
Proof.
  destruct o; cbn [apply]; trivial.
  - unfold connect. destruct (decide _); reflexivity.
  - unfold join. destruct (registry c !! h); [|reflexivity].
    destruct (decide _); reflexivity.
  - unfold leave. destruct (subscriptions c !! h); reflexivity.
Qed.

Lemma accepted_log (r : RoomId) (ops : list op) (c : Core) :
  log r (snd (accepted r ops c)) = log r c ++ fst (accepted r ops c) /\
  map sequence (fst (accepted r ops c))
  = seq (S (length (log r c))) (length (fst (accepted r ops c))).
Proof.
  revert c. induction ops as [|o ops IH]; intros c.
  - cbn. now rewrite app_nil_r.
  - cbn [accepted]. specialize (IH (apply o c)).
    destruct (accepted r ops (apply o c)) as [later c'] eqn:Hrest.
    cbn [fst snd] in *. destruct IH as [IHlog IHseq].
    destruct o as [identity h | h | h r' | h r' | up from r' text time | r' room];
      try (match type of IHlog with
           | context [apply ?o c] => pose proof (apply_log o c r) as Hsame
           end; cbv beta iota in Hsame;
           rewrite Hsame in IHlog, IHseq; cbn [app]; split; assumption).
    pose proof (route_log up from r' text time c r) as Hroute.
    cbn [apply] in IHlog, IHseq.
    destruct (route up from r' text time c) as [[m|e] c1]; cbn [snd] in *.
    + destruct Hroute as [Hm Hlog]. destruct (decide (r' = r)) as [->|Hne].
      * rewrite Hlog in IHlog, IHseq. rewrite length_app in IHseq. cbn in IHseq.
        rewrite <- app_assoc in IHlog. split; [exact IHlog|].
        cbn. rewrite Hm. f_equal. rewrite IHseq. f_equal. lia.
      * rewrite Hlog in IHlog, IHseq. split; assumption.
    + rewrite Hroute in IHlog, IHseq. split; assumption.
Qed.

(** C2: whatever operations drive the core from its start, calls of
    [route] on any rooms interleaved with joins, leaves, connects,
    disconnects and membership changes, the messages a room's calls were
    answered with are, in call order, the log of the room, and the
    [i]-th of them has sequence number [i + 1]: the numbers increase by
    one from 1 in acceptance order and no two messages of the room share
    one. *)
Theorem room_order (rooms : gmap nat Room) (cap : nat) (ops : list op) (r : RoomId) :
  let msgs := fst (accepted r ops (empty rooms cap)) in
  let final := snd (accepted r ops (empty rooms cap)) in
  log r final = msgs /\
  map sequence msgs = seq 1 (length msgs) /\
  (forall (i : nat) (m : Message), msgs !! i = Some m -> sequence m = S i) /\
  (forall (i j : nat) (mi mj : Message),
      msgs !! i = Some mi -> msgs !! j = Some mj -> i < j -> sequence mi < sequence mj) /\
  NoDup (map sequence msgs).
Proof.
  intros msgs final.
  destruct (accepted_log r ops (empty rooms cap)) as [Hlog Hseq].
  fold msgs in Hlog, Hseq. fold final in Hlog.
  change (log r (empty rooms cap)) with (@nil Message) in Hlog, Hseq.
  cbn [app length] in Hlog, Hseq.
  assert (Hnth : forall i m, msgs !! i = Some m -> sequence m = S i).
  { intros i m Hi.
    assert (Hmap : map sequence msgs !! i = Some (sequence m))
      by (rewrite list_lookup_fmap, Hi; reflexivity).
    rewrite Hseq in Hmap. apply lookup_seq in Hmap as [-> _]. reflexivity. }
  split; [exact Hlog|]. split; [exact Hseq|]. split; [exact Hnth|]. split.
  - intros i j mi mj Hi Hj Hlt. rewrite (Hnth i mi Hi), (Hnth j mj Hj). lia.
  - rewrite Hseq. apply NoDup_seq.
Qed.

(** *** The example room as an instance *)

(** Three sends accepted, one refused by the store, one by membership:
    the accepted ones are numbered 1, 2, 3. *)
Lemma room_order_busy_day :
  let msgs := fst (accepted 1 busy_day (empty two_members 8)) in
  map content msgs = ["first"; "second"; "third"] /\
  map sequence msgs = seq 1 (length msgs) /\
  (forall (i : nat) (m : Message), msgs !! i = Some m -> sequence m = S i).
Proof.
  destruct (room_order two_members 8 busy_day 1) as (_ & Hseq & Hnth & _).
  split; [reflexivity|]. split; [exact Hseq | exact Hnth].
Defined.

(** The first message of room 1 is refused by the store and accepted, as
    number 1, when retried. *)
Lemma store_failure_then_retry_connected :
  exists c',
    route false 10 1 "hello" 5 connected = (Failure StoreError, c') /\
    store c' = store connected /\
    exists m c'',
      route true 10 1 "hello" 6 c' = (Success m, c'') /\
      sequence m = 1 /\ content m = "hello".
Proof.
  destruct (store_failure_then_retry 10 1 "hello" 5 6 connected)
    as (c' & Hfail & (_ & _ & _ & Hstore & _) & _ & m & c'' & Hretry & Hseq & Htext & _).
  - vm_compute. discriminate.
  - refine (bool_decide_unpack _ _). vm_compute. exact I.
  - exists c'. split; [exact Hfail|]. split; [exact Hstore|].
    exists m, c''. split; [exact Hretry|]. split; [exact Hseq | exact Htext].
Defined.

(** A text of 10001 characters is refused, store up or down. *)
Lemma oversized_message_refused_connected :
  route true 10 1 long_text 0 connected = (Failure MessageTooLarge, connected) /\
  route false 10 1 long_text 0 connected = (Failure MessageTooLarge, connected).
Proof.
  split.
  - apply (oversized_message_refused true 10 1 long_text 0 connected).
    vm_compute. reflexivity.
  - apply (oversized_message_refused false 10 1 long_text 0 connected).
    vm_compute. reflexivity.
Defined.

(** Connection 100 of member 10 joins and leaves room 1 twice. *)
Lemma join_leave_idempotent_connected :
  fst (join 100 1 connected) = Success tt /\
  fst (join 100 1 (snd (join 100 1 connected))) = Success tt /\
  snd (join 100 1 (snd (join 100 1 connected))) = snd (join 100 1 connected) /\
  fst (leave 100 1 (snd (leave 100 1 connected))) = Success tt /\
  snd (leave 100 1 (snd (leave 100 1 connected))) = snd (leave 100 1 connected).
Proof.
  destruct (join_leave_idempotent 100 1 connected)
    as ((Hjoin & _ & Hmember) & (Hleave & _ & Hleft & _)).
  destruct (Hmember 10) as (Hfirst & Hsecond & _).
  - reflexivity.
  - refine (bool_decide_unpack _ _). vm_compute. exact I.
  - repeat split; assumption.
Defined.

End RouterFacts.

(** * More of app.js *)

Section Handlers.

Variable fmt : json -> string.

(** ** Frames *)

Lemma keeps_ret {B A : Type} (f : State -> B) (a : A) : keeps f (ret a).
Proof. intros st. reflexivity. Qed.

Lemma keeps_lift {B A : Type} (f : State -> B) (r : result A) : keeps f (lift r).
Proof. intros st. reflexivity. Qed.

Lemma keeps_gets {B A : Type} (f : State -> B) (g : State -> A) : keeps f (gets g).
Proof. intros st. reflexivity. Qed.

Lemma keeps_bind {B A C : Type} (f : State -> B) (m : M A) (k : A -> M C) :
  keeps f m -> (forall a, keeps f (k a)) -> keeps f (bind m k).
Proof.
  intros Hm Hk st. unfold bind. specialize (Hm st).
  destruct (m st) as [[a|e] st']; cbn [snd] in *; [|exact Hm].
  now rewrite Hk.
Qed.

Lemma keeps_try_catch {B : Type} (f : State -> B) (m : M unit) (h : exn -> M unit) :
  keeps f m -> (forall e, keeps f (h e)) -> keeps f (try_catch m h).
Proof.
  intros Hm Hh st. unfold try_catch. specialize (Hm st).
  destruct (m st) as [[a|e] st']; cbn [snd] in *; [exact Hm|].
  now rewrite Hh.
Qed.

Lemma keeps_spawn {B : Type} (f : State -> B) (m : M unit) : keeps f m -> keeps f (spawn m).
Proof. intros Hm st. apply Hm. Qed.

Lemma keeps_forEach {B : Type} (f : State -> B) (items : list json) (g : json -> M unit) :
  (forall x, keeps f (g x)) -> keeps f (forEach items g).
Proof.
  intros Hg. induction items as [|x items IH]; cbn [forEach].
  - apply keeps_ret.
  - apply keeps_bind; [apply Hg | intros _; exact IH].
Qed.

Lemma keeps_js_forEach {B : Type} (f : State -> B) (v : json) (g : json -> M unit) :
  (forall x, keeps f (g x)) -> keeps f (js_forEach v g).
Proof.
  intros Hg. destruct v; cbn [js_forEach]; try apply keeps_lift.
  now apply keeps_forEach.
Qed.

Lemma keeps_modify {B : Type} (f : State -> B) (g : State -> State) :
  (forall st, f (g st) = f st) -> keeps f (modify g).
Proof. intros H st. apply H. Qed.

Lemma outbound_snoc (tr : list effect) (e : effect) :
  is_outbound e = false -> outbound (tr ++ [e]) = outbound tr.
Proof.
  intros He. unfold outbound. rewrite List.filter_app. cbn [List.filter].
  rewrite He. apply app_nil_r.
Qed.

Lemma keeps_outbound_emit (e : effect) :
  is_outbound e = false -> keeps (fun st => outbound (trace st)) (emit e).
Proof. intros He st. cbn. now apply outbound_snoc. Qed.

Ltac head_of t :=
  match t with
  | ?f _ => head_of f
  | _ => t
  end.

(** Goes through a handler along its structure; a write that changes [f]
    is left to the proof. *)
Ltac keeps_steps :=
  repeat
    match goal with
    | |- keeps _ (ret _) => apply keeps_ret
    | |- keeps _ (lift _) => apply keeps_lift
    | |- keeps _ (gets _) => apply keeps_gets
    | |- keeps _ (bind _ _) => apply keeps_bind; [|intros ?]
    | |- keeps _ (try_catch _ _) => apply keeps_try_catch; [|intros ?]
    | |- keeps _ (spawn _) => apply keeps_spawn
    | |- keeps _ (js_forEach _ _) => apply keeps_js_forEach; intros ?
    | |- keeps _ (forEach _ _) => apply keeps_forEach; intros ?
    | |- keeps _ (emit _) =>
        first [ solve [apply keeps_modify; intros ?; reflexivity]
              | solve [apply keeps_outbound_emit; reflexivity]
              | fail 2 ]
    | |- keeps _ (modify _) =>
        first [ solve [apply keeps_modify; intros ?; reflexivity] | fail 2 ]
    | |- keeps _ (match ?x with _ => _ end) => destruct x
    | |- keeps _ ?m => let h := head_of m in progress unfold h
    end.

(** ** handleWsMessage *)

Lemma handleWsMessage_keeps_model (data : json) :
  keeps (fun st => (token st, user st, activeChat st, socket st, sockets st,
                    privateChats st, chat_list st, message_input st,
                    (ls_token st, ls_user st, view st, title st)))
    (handleWsMessage fmt data).
Proof. keeps_steps. Qed.

Lemma handleWsMessage_keeps_outbound (data : json) :
  keeps (fun st => outbound (trace st)) (handleWsMessage fmt data).
Proof. keeps_steps. Qed.

(** X1: a frame that arrives on a socket, whatever it holds, makes the
    client send nothing, issue no request and touch no socket; and it
    leaves the token, the user, the active chat, the chat list, the text
    being typed, the stored session and the view as they are.  All it can
    change is the message area and the toasts. *)
Theorem incoming_frame_stays_inside (sid : nat) (data : option json) (st : State) :
  let st' := step fmt (WsMessage sid data) st in
  outbound (trace st') = outbound (trace st) /\
  token st' = token st /\ user st' = user st /\ activeChat st' = activeChat st /\
  socket st' = socket st /\ sockets st' = sockets st /\
  privateChats st' = privateChats st /\ chat_list st' = chat_list st /\
  message_input st' = message_input st /\
  ls_token st' = ls_token st /\ ls_user st' = ls_user st /\
  view st' = view st /\ title st' = title st.
Proof.
  cbn [step].
  destruct (sockets st !! sid) as [w|]; [|repeat split].
  destruct (readyState w), data as [d|]; try (repeat split; fail).
  pose proof (handleWsMessage_keeps_model d st) as Hmodel.
  pose proof (handleWsMessage_keeps_outbound d st) as Hout.
  unfold exec. cbn beta in Hmodel, Hout.
  injection Hmodel as -> -> -> -> -> -> -> -> -> -> -> ->.
  rewrite Hout. repeat split.
Qed.

Lemma get_prop (k : string) (v : json) : is_nullish v = false -> get k v = Ok (prop k v).
Proof. destruct v; cbn; congruence. Qed.

Lemma get_Ok_not_nullish (k : string) (v x : json) : get k v = Ok x -> is_nullish v = false.
Proof. destruct v; cbn; congruence. Qed.

Lemma appendMessage_div (msg : json) (isMe : bool) (st : State) :
  is_nullish msg = false ->
  appendMessage fmt msg isMe st
  = (Ok tt, set_messages_area (messages_area st ++ [message_div fmt isMe msg]) st).
Proof.
  intros H. unfold appendMessage, message_div, bind, lift, modify.
  now rewrite !(get_prop _ _ H).
Qed.

Lemma appendMessage_nullish (msg : json) (isMe : bool) (st : State) :
  is_nullish msg = true -> appendMessage fmt msg isMe st = (Throw TypeError, st).
Proof. destruct msg; cbn; congruence. Qed.

(** [handleWsMessage] on a frame of type [message]. *)
Lemma handleWsMessage_message (data : json) (st : State) :
  get "type" data = Ok (JStr "message") ->
  handleWsMessage fmt data st =
    match activeChat st with
    | Some chat =>
        if isTargetChat (chat_id chat) data then
          (message <- lift (get "message" data) ;;
           sender <- lift (get "sender_id" message) ;;
           me <- gets user ;;
           uid <- lift (get "id" me) ;;
           appendMessage fmt message (strict_eq sender uid)) st
        else new_message_toast data st
    | None => new_message_toast data st
    end.
Proof.
  intros Htype. pose proof (get_Ok_not_nullish _ _ _ Htype) as Hdata.
  unfold handleWsMessage, isTargetChat, bind at 1, lift at 1. rewrite Htype.
  cbn [strict_eq String.eqb Ascii.eqb Bool.eqb].
  unfold bind at 1, gets at 1. destruct (activeChat st) as [chat|]; [|reflexivity].
  unfold bind, lift. rewrite !(get_prop _ _ Hdata).
  match goal with |- context [if ?c then _ else _] => destruct c end; reflexivity.
Qed.

(** X2: whether a broadcast belongs to the active chat is decided by the
    [chat_type] of the frame and the id alone; the type of the active chat
    is never consulted.  The message area and the toasts after a frame are
    the same whatever that type is, and a group message whose [group_id]
    equals the id of the active private chat is appended to that chat. *)
Theorem active_chat_type_not_consulted (st : State) (id : json) :
  (forall (data t1 t2 : json),
      let after t :=
        exec (handleWsMessage fmt data) (set_activeChat (Some (mkActiveChat id t)) st) in
      messages_area (after t1) = messages_area (after t2) /\
      toasts (after t1) = toasts (after t2)) /\
  (forall (message uid : json),
      strict_eq id id = true ->
      activeChat st = Some (mkActiveChat id (JStr "private")) ->
      is_nullish message = false ->
      get "id" (user st) = Ok uid ->
      messages_area
        (exec (handleWsMessage fmt
                 (message_event (mkActiveChat id (JStr "group")) message)) st)
      = messages_area st ++
          [message_div fmt (strict_eq (prop "sender_id" message) uid) message]).
Proof.
  split.
  - intros data t1 t2. cbn zeta.
    unfold exec, handleWsMessage, new_message_toast, appendMessage, showToast,
      setTimeout, emit, bind, lift, gets, modify.
    cbn.
    repeat match goal with
           | |- context [match ?x with _ => _ end] => destruct x; cbn
           end; split; reflexivity.
  - intros message uid Hid Hchat Hmsg Huid.
    unfold exec. rewrite handleWsMessage_message by reflexivity. rewrite Hchat.
    unfold isTargetChat, message_event, prop. cbn [get assoc String.eqb Ascii.eqb Bool.eqb
      chat_id chat_type strict_eq andb orb]. rewrite Hid. cbn [andb orb].
    unfold bind, lift, gets. rewrite (get_prop _ _ Hmsg), Huid.
    now rewrite (appendMessage_div _ _ _ Hmsg).
Qed.

(** X3: a broadcast for a chat that is not the active one, or that arrives
    while no chat is open, is not rendered: it shows the toast "New
    message from" the sender, and when it carries no message object it is
    dropped without a trace. *)
Theorem message_for_another_chat (data : json) (st : State) :
  get "type" data = Ok (JStr "message") ->
  match activeChat st with
  | Some chat => isTargetChat (chat_id chat) data = false
  | None => True
  end ->
  let st' := exec (handleWsMessage fmt data) st in
  messages_area st' = messages_area st /\
  (is_nullish (prop "message" data) = false ->
   st' = exec (showToast
                 (Text ("New message from " +:+
                        toString (prop "sender_name" (prop "message" data))))
                 "success") st) /\
  (is_nullish (prop "message" data) = true -> st' = st).
Proof.
  intros Htype Hother st'.
  assert (Hrun : st' = exec (new_message_toast data) st).
  { subst st'. unfold exec. rewrite handleWsMessage_message by assumption.
    destruct (activeChat st) as [chat|]; [now rewrite Hother | reflexivity]. }
  pose proof (get_Ok_not_nullish _ _ _ Htype) as Hdata.
  assert (Hcases :
    (is_nullish (prop "message" data) = false ->
     exec (new_message_toast data) st =
     exec (showToast
             (Text ("New message from " +:+
                    toString (prop "sender_name" (prop "message" data))))
             "success") st) /\
    (is_nullish (prop "message" data) = true -> exec (new_message_toast data) st = st)).
  { unfold exec, new_message_toast, bind, lift. rewrite (get_prop _ _ Hdata). split.
    - intros Hm. now rewrite (get_prop _ _ Hm).
    - intros Hm. destruct (prop "message" data); try discriminate Hm; reflexivity. }
  destruct Hcases as [Hsome Hnone]. rewrite Hrun.
  split; [|split; assumption].
  destruct (is_nullish (prop "message" data)) eqn:Hm.
  - now rewrite Hnone.
  - now rewrite Hsome.
Qed.

(** X4: a frame of type [error] shows its [message] as an error toast; a
    frame of any other type but [message], a frame without a type and a
    frame that is not an object change nothing. *)
Theorem other_frames (data : json) (st : State) :
  (get "type" data = Ok (JStr "error") ->
   exec (handleWsMessage fmt data) st
   = exec (showToast (Text (dom_text (prop "message" data))) "error") st) /\
  ((forall type, get "type" data = Ok type ->
      strict_eq type (JStr "message") = false /\ strict_eq type (JStr "error") = false) ->
   exec (handleWsMessage fmt data) st = st).
Proof.
  unfold exec, handleWsMessage. split.
  - intros Htype. pose proof (get_Ok_not_nullish _ _ _ Htype) as Hdata.
    unfold bind, lift. rewrite Htype. cbn [strict_eq String.eqb Ascii.eqb Bool.eqb].
    now rewrite (get_prop _ _ Hdata).
  - intros Hother. unfold bind at 1, lift at 1.
    destruct (get "type" data) as [type|e]; [|reflexivity].
    destruct (Hother type eq_refl) as [-> Herr].
    destruct (strict_eq type (JStr "message_sent")); [reflexivity|].
    now rewrite Herr.
Qed.

(** ** The history of a chat *)

Lemma forEach_history (uid : json) (msgs : list json) (st : State) :
  get "id" (user st) = Ok uid ->
  forEach msgs (fun msg =>
    sender <- lift (get "sender_id" msg) ;;
    me <- gets user ;;
    uid <- lift (get "id" me) ;;
    appendMessage fmt msg (strict_eq sender uid)) st
  = (if forallb (fun m => negb (is_nullish m)) msgs then Ok tt else Throw TypeError,
     set_messages_area
       (messages_area st ++
          map (fun m => message_div fmt (strict_eq (prop "sender_id" m) uid) m)
            (before_nullish msgs)) st).
Proof.
  revert st. induction msgs as [|m msgs IH]; intros st Huid.
  - cbn. rewrite app_nil_r. now destruct st.
  - cbn [forEach forallb before_nullish]. unfold bind at 1.
    destruct (is_nullish m) eqn:Hm.
    + unfold bind, lift. destruct m; try discriminate Hm; cbn;
        rewrite app_nil_r; now destruct st.
    + unfold bind at 1, lift at 1. rewrite (get_prop _ _ Hm).
      unfold bind at 1, gets at 1, bind at 1, lift at 1. rewrite Huid.
      rewrite (appendMessage_div _ _ _ Hm). cbn [fst snd negb andb].
      rewrite IH by exact Huid. cbn [map]. f_equal.
      cbn [messages_area set_messages_area]. now rewrite <- app_assoc.
Qed.

(** X5: when the history of a chat arrives, its messages are appended to
    whatever the message area holds, one [div] per message in the order of
    the response, marked as sent when [sender_id] is the id of the user; a
    [null] entry stops the rendering there, with the messages before it
    rendered and an error on the console. *)
Theorem history_is_appended
    (r : FetchOutcome) (res uid : json) (msgs : list json) (st : State) :
  apiCall_response r = Ok res ->
  get "messages" res = Ok (JArr msgs) ->
  get "id" (user st) = Ok uid ->
  let rendered :=
    map (fun m => message_div fmt (strict_eq (prop "sender_id" m) uid) m)
      (before_nullish msgs) in
  let st' := exec (openChat_resume fmt r) st in
  messages_area st' = messages_area st ++ rendered /\
  (forallb (fun m => negb (is_nullish m)) msgs = true ->
   before_nullish msgs = msgs /\
   st' = set_messages_area (messages_area st ++ rendered) st) /\
  (forallb (fun m => negb (is_nullish m)) msgs = false ->
   trace st' = trace st ++ [ConsoleError "Failed to load messages"]).
Proof.
  intros Hres Hmsgs Huid rendered st'.
  assert (Hrun : st' =
    let st1 := set_messages_area (messages_area st ++ rendered) st in
    if forallb (fun m => negb (is_nullish m)) msgs then st1
    else set_trace (trace st1 ++ [ConsoleError "Failed to load messages"]) st1).
  { subst st'. unfold exec, openChat_resume, try_catch, bind at 1, lift at 1.
    rewrite Hres. unfold bind at 1, lift at 1. rewrite Hmsgs. cbn [js_forEach].
    rewrite (forEach_history uid msgs st Huid).
    destruct (forallb _ msgs); reflexivity. }
  rewrite Hrun. cbn zeta.
  split; [destruct (forallb _ msgs); reflexivity|]. split.
  - intros Hall. rewrite Hall. split; [|reflexivity].
    clear -Hall. induction msgs as [|m msgs IH]; [reflexivity|].
    cbn in *. destruct (is_nullish m); [discriminate|]. cbn in Hall. now rewrite IH.
  - intros Hsome. rewrite Hsome. reflexivity.
Qed.

(** X6: when the history cannot be had (the request fails, the response is
    not ok or not JSON) the message area stays as it is and the failure is
    written to the console only; and nothing is rendered either while no
    user is set. *)
Theorem history_failure (r : FetchOutcome) (st : State) :
  let st' := exec (openChat_resume fmt r) st in
  (throws (apiCall_response r) ->
   st' = set_trace (trace st ++ [ConsoleError "Failed to load messages"]) st) /\
  (is_nullish (user st) = true -> messages_area st' = messages_area st) /\
  toasts st' = toasts st.
Proof.
  cbn zeta. split; [|split].
  - intros [e He]. unfold exec, openChat_resume, try_catch, bind, lift. now rewrite He.
  - intros Huser. unfold exec, openChat_resume, try_catch, bind at 1, lift at 1.
    destruct (apiCall_response r) as [res|e]; [|reflexivity].
    unfold bind at 1, lift at 1. destruct (get "messages" res) as [messages|e]; [|reflexivity].
    destruct messages as [| | | | |msgs|]; try reflexivity.
    cbn [js_forEach]. destruct msgs as [|m msgs]; [reflexivity|].
    cbn [forEach]. unfold bind at 1, bind at 1, lift at 1.
    destruct (get "sender_id" m); [|reflexivity].
    unfold bind at 1, gets at 1, bind at 1, lift at 1.
    destruct (user st); try discriminate Huser; reflexivity.
  - pose proof (fun H => H st : toasts (snd (openChat_resume fmt r st)) = toasts st) as K.
    apply K. change (keeps toasts (openChat_resume fmt r)). keeps_steps.
Qed.

(** ** The chat list *)

Lemma renderChatItem_renders (chat : json) (st : State) :
  chat_renders chat = true ->
  renderChatItem chat st
  = (Ok tt, set_chat_list (chat_list st ++ [chat_item (activeChat st) chat]) st).
Proof.
  unfold chat_renders, renderChatItem, chat_item, prop, bind, gets, lift, modify, ret.
  intros H.
  destruct chat; try discriminate H; cbn [get] in *;
    destruct (activeChat st);
    (destruct (get0 _) as [[]|]; try discriminate H; reflexivity).
Qed.

Lemma renderChatItem_throws (chat : json) (st : State) :
  chat_renders chat = false -> renderChatItem chat st = (Throw TypeError, st).
Proof.
  unfold chat_renders, renderChatItem, bind, gets, lift, modify, ret.
  intros H.
  destruct chat; cbn [get] in *; destruct (activeChat st); try reflexivity;
    match goal with
    | |- context [get0 ?x] => destruct x as [| | | |[]|[]|]; cbn in *
    end;
    try reflexivity; try discriminate H;
    match goal with
    | |- context [toUpperCase ?x] => destruct x; cbn in *
    end; try reflexivity; try discriminate H.
Qed.

Lemma forEach_renderChatItem (chats : list json) (st : State) :
  forEach chats renderChatItem st
  = (if forallb chat_renders chats then Ok tt else Throw TypeError,
     set_chat_list
       (chat_list st ++ map (chat_item (activeChat st)) (before_unnamed chats)) st).
Proof.
  revert st. induction chats as [|chat chats IH]; intros st.
  - cbn. rewrite app_nil_r. now destruct st.
  - cbn [forEach forallb before_unnamed]. unfold bind.
    destruct (chat_renders chat) eqn:Hc.
    + rewrite (renderChatItem_renders chat st Hc), IH. cbn [andb map]. f_equal.
      cbn [chat_list set_chat_list activeChat]. now rewrite <- app_assoc.
    + rewrite (renderChatItem_throws chat st Hc). cbn. rewrite app_nil_r. now destruct st.
Qed.

Lemma renderChatList_run (st : State) :
  renderChatList st =
    match privateChats st with
    | JArr chats =>
        (if forallb chat_renders chats then Ok tt else Throw TypeError,
         set_chat_list (map (chat_item (activeChat st)) (before_unnamed chats)) st)
    | _ => (Throw TypeError, set_chat_list [] st)
    end.
Proof.
  unfold renderChatList, bind at 1, modify at 1. cbn [fst snd].
  unfold bind, gets. cbn [fst snd privateChats set_chat_list].
  destruct (privateChats st) as [| | | | |chats|]; try reflexivity.
  cbn [js_forEach]. now rewrite forEach_renderChatItem.
Qed.

Lemma before_unnamed_all (chats : list json) :
  forallb chat_renders chats = true <-> before_unnamed chats = chats.
Proof.
  induction chats as [|chat chats IH]; [easy|].
  cbn. destruct (chat_renders chat); cbn; [|easy].
  rewrite IH. split; [now intros -> | now intros [= ->]].
Qed.

(** X7: [renderChatList] rebuilds the list from [state.privateChats] and
    changes nothing else: one item per chat in order, the items whose id is
    the id of the active chat marked active.  It stops with a [TypeError]
    at the first chat without a participant name, leaving that chat and
    all the chats after it out of the list, and returns exactly when every
    chat is in the list; when [state.privateChats] is not an array the list
    is left empty. *)
Theorem renderChatList_up_to_first_unnamed (st : State) :
  (forall chats : list json,
      privateChats st = JArr chats ->
      snd (renderChatList st)
      = set_chat_list (map (chat_item (activeChat st)) (before_unnamed chats)) st /\
      (fst (renderChatList st) = Ok tt <-> before_unnamed chats = chats) /\
      (fst (renderChatList st) <> Ok tt -> fst (renderChatList st) = Throw TypeError)) /\
  ((forall chats, privateChats st <> JArr chats) ->
   renderChatList st = (Throw TypeError, set_chat_list [] st)).
Proof.
  rewrite renderChatList_run. split.
  - intros chats ->. cbn [fst snd]. split; [reflexivity|].
    rewrite <- before_unnamed_all.
    destruct (forallb chat_renders chats); split; try easy.
  - intros Hno. destruct (privateChats st); try reflexivity.
    now destruct (Hno items).
Qed.

(** X8: a response to the request of the chats replaces
    [state.privateChats] by its [chats] field before the list is rendered,
    so also when the field is missing or a chat cannot be rendered; a
    failed request leaves the chats and the list as they are.  Either
    failure is written to the console only. *)
Theorem loadChats_outcomes (r : FetchOutcome) (st : State) :
  let st' := exec (loadChats_resume r) st in
  (throws (apiCall_response r) ->
   st' = set_trace (trace st ++ [ConsoleError "Failed to load chats"]) st) /\
  (forall res : json,
      apiCall_response r = Ok res -> is_nullish res = false ->
      privateChats st' = prop "chats" res /\
      chat_list st' =
        match prop "chats" res with
        | JArr chats => map (chat_item (activeChat st)) (before_unnamed chats)
        | _ => []
        end) /\
  toasts st' = toasts st.
Proof.
  cbn zeta. split; [|split].
  - intros [e He]. unfold exec, loadChats_resume, try_catch, bind, lift. now rewrite He.
  - intros res Hres Hobj.
    assert (Hrun : exists out,
      loadChats_resume r st = (Ok tt, out) /\
      privateChats out = prop "chats" res /\
      chat_list out =
        match prop "chats" res with
        | JArr chats => map (chat_item (activeChat st)) (before_unnamed chats)
        | _ => []
        end).
    { unfold loadChats_resume, try_catch, bind at 1, lift at 1. rewrite Hres.
      unfold bind at 1, lift at 1. rewrite (get_prop _ _ Hobj).
      unfold bind at 1, modify at 1. cbn [fst snd].
      rewrite renderChatList_run.
      cbn [privateChats set_privateChats activeChat].
      destruct (prop "chats" res); try (eexists; repeat split; fail).
      match goal with |- context [forallb ?f ?l] => destruct (forallb f l) end;
        eexists; repeat split. }
    destruct Hrun as (out & Hout & Hchats & Hlist).
    unfold exec. rewrite Hout. split; assumption.
  - pose proof (fun H => H st : toasts (snd (loadChats_resume r st)) = toasts st) as K.
    apply K. change (keeps toasts (loadChats_resume r)). keeps_steps.
Qed.

(** ** Logging in and starting up *)

Lemma updateUserInfo_run (st : State) :
  updateUserInfo st =
    if truthy (user st) then
      (if has_initial (prop "nick_name" (user st)) then Ok tt else Throw TypeError,
       set_user_name (dom_text (prop "nick_name" (user st))) st)
    else (Ok tt, st).
Proof.
  unfold updateUserInfo, has_initial, prop, bind at 1, gets at 1.
  destruct (truthy (user st)) eqn:Hu; [|reflexivity].
  assert (Hn : is_nullish (user st) = false) by (destruct (user st); easy).
  unfold bind, lift, modify. rewrite (get_prop _ _ Hn). unfold prop.
  destruct (get "nick_name" (user st)) as [nick|]; cbn [fst snd]; [|reflexivity].
  destruct nick as [| | | |[]|[|x l]|f]; cbn; try reflexivity.
  - destruct x; reflexivity.
  - destruct (assoc "0" f); reflexivity.
Qed.

Lemma loadInitialData_run (st : State) :
  loadInitialData st =
    let st1 := if truthy (user st)
               then set_user_name (dom_text (prop "nick_name" (user st))) st else st in
    if user_info_renders (user st)
    then (Ok tt, set_trace (trace st1 ++ [Fetch (chats_request st)]) st1)
    else (Throw TypeError, st1).
Proof.
  unfold loadInitialData, user_info_renders, bind. rewrite updateUserInfo_run.
  unfold loadChats, apiCall_send, chats_request, bind, gets, emit, modify.
  destruct (truthy (user st)); cbn [negb orb fst snd].
  - destruct (has_initial _); reflexivity.
  - reflexivity.
Qed.

(** X9: [loadInitialData] shows the name of the user and then requests the
    chats; when the user has no [nick_name] to take an initial from, the
    exception of [updateUserInfo] ends it before the request, so the chats
    are requested exactly when there is no user or the user has a name. *)
Theorem chats_requested_iff_user_named (st : State) :
  let st' := snd (loadInitialData st) in
  outbound (trace st') =
    outbound (trace st) ++
      (if user_info_renders (user st) then [Fetch (chats_request st)] else []) /\
  (fst (loadInitialData st) = Ok tt <-> user_info_renders (user st) = true) /\
  user_name st' =
    (if truthy (user st) then dom_text (prop "nick_name" (user st)) else user_name st).
Proof.
  rewrite loadInitialData_run. cbn zeta.
  destruct (user_info_renders (user st)), (truthy (user st)); cbn [fst snd];
    (split; [|split; [easy | reflexivity]]);
    cbn [trace set_trace set_user_name]; unfold outbound;
    rewrite ?List.filter_app, ?app_nil_r; reflexivity.
Qed.

Lemma handleLogin_resume_failure (greeting : string) (r : FetchOutcome) (st : State) :
  (forall res, apiCall_response r = Ok res -> is_nullish res = true) ->
  exists e, handleLogin_resume greeting r st = showToast (MessageOf e) "error" st.
Proof.
  intros Hfail. unfold handleLogin_resume, try_catch, bind at 1, lift at 1.
  destruct (apiCall_response r) as [res|e]; [|now exists e].
  specialize (Hfail res eq_refl). exists TypeError.
  destruct res; try discriminate Hfail; reflexivity.
Qed.

(** X10: a login or signup that fails (the request fails, the response is
    not ok or not JSON, the body is [null]) changes nothing of the
    session: token, user, stored session, sockets and view stay as they
    are, nothing leaves the page, and one error toast is shown. *)
Theorem failed_login_changes_nothing (greeting : string) (r : FetchOutcome) (st : State) :
  (forall res, apiCall_response r = Ok res -> is_nullish res = true) ->
  let st' := step fmt (LoginSettled greeting r) st in
  (exists e, st' = exec (showToast (MessageOf e) "error") st) /\
  token st' = token st /\ user st' = user st /\
  ls_token st' = ls_token st /\ ls_user st' = ls_user st /\
  socket st' = socket st /\ sockets st' = sockets st /\
  view st' = view st /\ outbound (trace st') = outbound (trace st) /\
  length (toasts st') = S (length (toasts st)).
Proof.
  intros Hfail st'. subst st'. cbn [step]. unfold exec.
  destruct (handleLogin_resume_failure greeting r st Hfail) as [e ->].
  split; [now exists e|].
  unfold showToast, setTimeout, emit, bind, gets, modify. cbn.
  rewrite length_app, Nat.add_1_r. repeat split.
  unfold outbound. rewrite List.filter_app. cbn. apply app_nil_r.
Qed.

Lemma bind_ok {A B : Type} (m : M A) (k : A -> M B) (a : A) (st : State) :
  fst (m st) = Ok a -> bind m k st = k a (snd (m st)).
Proof. unfold bind. destruct (m st) as [r st']. cbn. now intros ->. Qed.

Lemma showToast_ok (message : toast_text) (type : string) (st : State) :
  fst (showToast message type st) = Ok tt.
Proof. reflexivity. Qed.

Lemma connectWebSocket_ok (st : State) : fst (connectWebSocket st) = Ok tt.
Proof.
  unfold connectWebSocket, bind, gets.
  destruct (negb (truthy (token st)) || _ || _); [reflexivity|].
  destruct (socket st); reflexivity.
Qed.

(** The state in which a successful login calls [connectWebSocket]. *)
Lemma handleLogin_resume_success (greeting : string) (r : FetchOutcome) (res : json)
    (st : State) :
  apiCall_response r = Ok res -> is_nullish res = false ->
  exists s1,
    handleLogin_resume greeting r st
    = (Ok tt, snd (loadInitialData (snd (connectWebSocket s1)))) /\
    token s1 = prop "access_token" res /\ user s1 = prop "user" res /\
    ls_token s1 = Some (toString (prop "access_token" res)) /\
    ls_user s1 = Some (prop "user" res) /\
    view s1 = "view-app" /\ socket s1 = socket st /\ sockets s1 = sockets st /\
    trace s1 = trace st ++ [SetTimeout (CbRemoveToast (next_toast st)) 3000] /\
    toasts s1 = toasts st ++ [mkToast (next_toast st) "success" (Text greeting)] /\
    activeChat s1 = activeChat st.
Proof.
  intros Hres Hobj.
  eexists. split.
  - unfold handleLogin_resume, try_catch, bind at 1, lift at 1. rewrite Hres.
    unfold bind at 1, lift at 1. rewrite (get_prop _ _ Hobj).
    unfold bind at 1, modify at 1. cbn [fst snd].
    unfold bind at 1, lift at 1. rewrite (get_prop _ _ Hobj).
    unfold bind at 1, modify at 1. cbn [fst snd].
    unfold bind at 1, modify at 1. cbn [fst snd].
    unfold bind at 1, modify at 1. cbn [fst snd].
    rewrite (bind_ok _ _ tt) by apply showToast_ok.
    unfold bind at 1, navigate at 1, modify at 1. cbn [fst snd].
    rewrite (bind_ok _ _ tt) by apply connectWebSocket_ok.
    unfold spawn. reflexivity.
  - cbn. repeat split.
Qed.

Lemma loadInitialData_keeps_session :
  keeps (fun st => (token st, user st, ls_token st, ls_user st, view st,
                    socket st, sockets st, toasts st, activeChat st))
    loadInitialData.
Proof. keeps_steps. Qed.

(** X11: a login or signup that succeeds stores the token and the user of
    the response in the state and in [localStorage], greets with a toast
    and shows the application, all this also when the response has no
    [access_token]; it constructs a socket, the connecting current socket
    with its [onclose] handler, exactly when the token is one that
    [connectWebSocket] accepts. *)
Theorem successful_login (greeting : string) (r : FetchOutcome) (res : json) (st : State) :
  apiCall_response r = Ok res -> is_nullish res = false ->
  let st' := step fmt (LoginSettled greeting r) st in
  let tok := prop "access_token" res in
  token st' = tok /\ user st' = prop "user" res /\
  ls_token st' = Some (toString tok) /\ ls_user st' = Some (prop "user" res) /\
  view st' = "view-app" /\
  toasts st' = toasts st ++ [mkToast (next_toast st) "success" (Text greeting)] /\
  (unusable_token tok = true -> socket st' = socket st /\ sockets st' = sockets st) /\
  (unusable_token tok = false ->
   socket st' = Some (length (sockets st)) /\
   length (sockets st') = S (length (sockets st)) /\
   sockets st' !! length (sockets st) = Some (mkWebSocket CONNECTING true (toString tok))).
Proof.
  intros Hres Hobj st' tok. subst st'. cbn [step]. unfold exec.
  destruct (handleLogin_resume_success greeting r res st Hres Hobj)
    as (s1 & -> & Htok & Huser & Hlt & Hlu & Hview & Hsock & Hsocks & _ & Htoasts & _).
  cbn [snd].
  pose proof (loadInitialData_keeps_session (snd (connectWebSocket s1))) as Hkeep.
  cbn beta in Hkeep. injection Hkeep as -> -> -> -> -> -> -> -> _.
  fold tok in Htok, Hlt.
  destruct (unusable_token tok) eqn:Hun.
  - rewrite connectWebSocket_skips by now rewrite Htok. cbn [snd].
    repeat match goal with |- _ /\ _ => split end;
      try assumption; try reflexivity; try discriminate.
    intros _. now split.
  - assert (Hun1 : unusable_token (token s1) = false) by now rewrite Htok.
    destruct (connectWebSocket_connects s1 Hun1) as (Hs & Hc & Ht & _ & _).
    assert (Hkeeps : keeps (fun st => (user st, ls_token st, ls_user st, view st, toasts st))
                       connectWebSocket) by keeps_steps.
    specialize (Hkeeps s1). cbn beta in Hkeeps. injection Hkeeps as -> -> -> -> ->.
    rewrite Ht, Hc, Hs, Hsock, Hsocks, Htok.
    assert (Hlen : length (match socket st with
                           | Some sid => drop_socket sid (sockets st)
                           | None => sockets st
                           end) = length (sockets st))
      by (destruct (socket st); [apply drop_socket_length | reflexivity]).
    repeat match goal with |- _ /\ _ => split end;
      try assumption; try reflexivity; try discriminate.
    intros _. repeat match goal with |- _ /\ _ => split end.
    + reflexivity.
    + rewrite length_app, Hlen. cbn. lia.
    + rewrite lookup_app_r by lia. now rewrite Hlen, Nat.sub_diag.
Qed.

(** ** Starting up *)

Lemma boot_run (st : State) :
  boot st =
    if truthy (token st)
    then (Ok tt, snd (loadInitialData (snd (connectWebSocket (set_view "view-app" st)))))
    else (Ok tt, set_view "view-auth" st).
Proof.
  unfold boot, bind at 1, gets at 1. cbn [fst snd].
  destruct (truthy (token st)); [|reflexivity].
  unfold bind at 1, navigate at 1, modify at 1. cbn [fst snd].
  rewrite (bind_ok _ _ tt) by apply connectWebSocket_ok.
  reflexivity.
Qed.

Lemma loadInitialData_outbound (st : State) :
  outbound (trace (snd (loadInitialData st))) =
    outbound (trace st) ++
      (if user_info_renders (user st) then [Fetch (chats_request st)] else []).
Proof.
  rewrite loadInitialData_run. cbn zeta.
  destruct (user_info_renders (user st)), (truthy (user st)); cbn [fst snd];
    cbn [trace set_trace set_user_name]; unfold outbound;
    rewrite ?List.filter_app, ?app_nil_r; reflexivity.
Qed.


(** ** Logging out and in again *)

Lemma handleLogout_keeps_chat :
  keeps (fun st => (activeChat st, messages_area st, privateChats st, chat_list st,
                    message_input st, title st, chat_shown st))
    handleLogout.
Proof. keeps_steps. Qed.

Lemma handleLogin_resume_keeps_chat (greeting : string) (r : FetchOutcome) :
  keeps (fun st => (activeChat st, messages_area st, privateChats st, chat_list st,
                    message_input st, title st, chat_shown st))
    (handleLogin_resume greeting r).
Proof. keeps_steps. Qed.

(** X13: neither a logout nor a login that settles, successful or not,
    touches what the chat view holds: the active chat, the messages in the
    message area, the chats and their list, the title and the text in the
    input stay as they were, so the chat of the account that logged out is
    still the active one after another account has logged in. *)
Theorem session_change_keeps_chat (ev : event) (st : State) :
  is_session_change ev = true ->
  let st' := step fmt ev st in
  activeChat st' = activeChat st /\ messages_area st' = messages_area st /\
  privateChats st' = privateChats st /\ chat_list st' = chat_list st /\
  message_input st' = message_input st /\ title st' = title st /\
  chat_shown st' = chat_shown st.
Proof.
  intros Hev st'.
  assert (H : (activeChat st', messages_area st', privateChats st', chat_list st',
               message_input st', title st', chat_shown st')
              = (activeChat st, messages_area st, privateChats st, chat_list st,
                 message_input st, title st, chat_shown st)).
  { subst st'. destruct ev; try discriminate Hev; cbn [step]; unfold exec.
    - apply handleLogout_keeps_chat.
    - apply handleLogin_resume_keeps_chat. }
  now injection H as -> -> -> -> -> -> ->.
Qed.

(** ** Sockets that are no longer the current one *)

Lemma not_live (w : WebSocket) :
  live w = false -> onclose w = false /\ readyState w <> CONNECTING /\ readyState w <> OPEN.
Proof. unfold live. destruct (onclose w), (readyState w); easy. Qed.

(** X14: in every state the client can be in, an event of a socket that is
    not [state.socket] has no handler to run: that the socket opened or a
    frame that arrived on it leaves the state untouched, and that it closed
    changes the ready state of that socket and nothing else, so no
    reconnection is scheduled, nothing is logged and the status indicator
    does not change. *)
Theorem stale_socket_is_silent (st : State) (sid : nat) :
  reachable fmt st -> socket st <> Some sid ->
  step fmt (WsOpen sid) st = st /\
  (forall data, step fmt (WsMessage sid data) st = st) /\
  let st' := step fmt (WsClosed sid) st in
  trace st' = trace st /\ timers st' = timers st /\ status st' = status st /\
  socket st' = socket st /\ token st' = token st /\ toasts st' = toasts st /\
  messages_area st' = messages_area st /\
  forall j, j <> sid -> sockets st' !! j = sockets st !! j.
Proof.
  intros Hreach Hstale.
  assert (Hdead : forall w, sockets st !! sid = Some w ->
                    onclose w = false /\ readyState w <> CONNECTING /\ readyState w <> OPEN).
  { intros w Hw. apply not_live. destruct (live w) eqn:Hlive; [|reflexivity].
    now destruct Hstale; apply (reachable_current_socket_only fmt st Hreach sid w). }
  cbn [step]. destruct (sockets st !! sid) as [w|] eqn:Hw.
  - destruct (Hdead w eq_refl) as (Hon & Hc & Ho). rewrite Hon.
    destruct (readyState w); try easy; (split; [reflexivity|]);
      (split; [reflexivity|]); cbn; repeat split;
      intros j Hj; now rewrite list_lookup_alter_ne.
  - repeat split.
Qed.

(** X15: in every state the client can be in at most one socket can still
    call back into the client, and when [state.socket] is unset none can. *)
Theorem at_most_one_live_socket (st : State) :
  reachable fmt st ->
  (forall i j wi wj,
      sockets st !! i = Some wi -> sockets st !! j = Some wj ->
      live wi = true -> live wj = true -> i = j) /\
  (socket st = None -> forall i w, sockets st !! i = Some w -> live w = false).
Proof.
  intros Hreach.
  pose proof (reachable_current_socket_only fmt st Hreach) as Hinv. split.
  - intros i j wi wj Hi Hj Hli Hlj.
    pose proof (Hinv i wi Hi Hli) as Ei. pose proof (Hinv j wj Hj Hlj) as Ej.
    congruence.
  - intros Hnone i w Hi. destruct (live w) eqn:Hl; [|reflexivity].
    pose proof (Hinv i w Hi Hl). congruence.
Qed.

(** ** Toasts *)

Lemma preserves_spawn (P : State -> Prop) (m : M unit) :
  preserves P m -> preserves P (spawn m).
Proof. intros Hm st. apply Hm. Qed.

Lemma expire_frame {A : Type} (m : M A) :
  keeps (fun st => (toasts st, timers st)) m -> preserves toasts_expire m.
Proof.
  intros Hm st Hinv t. specialize (Hm st). cbn beta in Hm.
  injection Hm as -> ->. apply Hinv.
Qed.

Lemma expire_setTimeout (cb : callback) (delay : Z) :
  preserves toasts_expire (setTimeout cb delay).
Proof.
  intros st Hinv t Ht. cbn in *. apply elem_of_app. left. now apply Hinv.
Qed.

Lemma expire_showToast (message : toast_text) (type : string) :
  preserves toasts_expire (showToast message type).
Proof.
  intros st Hinv t Ht. cbn in *. apply elem_of_app.
  apply elem_of_app in Ht as [Ht|Ht].
  - left. now apply Hinv.
  - right. apply list_elem_of_singleton in Ht as ->. cbn. apply list_elem_of_singleton.
    reflexivity.
Qed.

Lemma removeToast_toasts (id : nat) (st : State) (t : Toast) :
  t ∈ toasts (snd (removeToast id st)) <-> t ∈ toasts st /\ toast_id t <> id.
Proof.
  cbn. rewrite !list_elem_of_In, List.filter_In, Bool.negb_true_iff, Nat.eqb_neq.
  reflexivity.
Qed.

Lemma expire_removeToast (id : nat) : preserves toasts_expire (removeToast id).
Proof.
  intros st Hinv t Ht. apply removeToast_toasts in Ht as [Ht _].
  exact (Hinv t Ht).
Qed.

Ltac expire_steps :=
  repeat
    match goal with
    | |- preserves _ _ => solve [apply expire_frame; keeps_steps]
    | |- preserves _ (showToast _ _) => apply expire_showToast
    | |- preserves _ (setTimeout _ _) => apply expire_setTimeout
    | |- preserves _ (removeToast _) => apply expire_removeToast
    | |- preserves _ (bind _ _) => apply preserves_bind; [|intros ?]
    | |- preserves _ (try_catch _ _) => apply preserves_try_catch; [|intros ?]
    | |- preserves _ (spawn _) => apply preserves_spawn
    | |- preserves _ (match ?x with _ => _ end) => destruct x
    | |- preserves _ ?m => let h := head_of m in progress unfold h
    end.

(** The timeouts left when the one at [i] has fired. *)
Lemma other_timers (i : nat) (l : list (Z * callback)) (x y : Z * callback) :
  l !! i = Some x -> y ∈ l -> y <> x -> y ∈ take i l ++ drop (S i) l.
Proof.
  intros Hi Hy Hne. rewrite <- (take_drop_middle l i x Hi) in Hy.
  apply elem_of_app in Hy as [Hy|Hy]; apply elem_of_app; [now left|].
  apply elem_of_cons in Hy as [->|Hy]; [easy | now right].
Qed.

Lemma expire_timer (i : nat) (delay : Z) (cb : callback) (st : State) :
  timers st !! i = Some (delay, cb) ->
  toasts_expire st ->
  toasts_expire
    (exec (modify (fun s => set_timers (take i (timers s) ++ drop (S i) (timers s)) s) ;;
           run_callback cb) st).
Proof.
  intros Hi Hinv.
  set (st1 := set_timers (take i (timers st) ++ drop (S i) (timers st)) st).
  change (toasts_expire (snd (run_callback cb st1))).
  assert (Hrest : forall t, t ∈ toasts st -> CbRemoveToast (toast_id t) <> cb ->
                    (3000%Z, CbRemoveToast (toast_id t)) ∈ timers st1).
  { intros t Ht Hcb. apply (other_timers i _ (delay, cb)); [exact Hi | now apply Hinv |].
    intros [= _ E]. now apply Hcb. }
  destruct cb as [|id|viewId]; cbn [run_callback].
  - assert (Hp : preserves toasts_expire connectWebSocket) by expire_steps.
    apply Hp. intros t Ht. now apply Hrest.
  - intros t Ht. apply removeToast_toasts in Ht as [Ht Hid].
    apply Hrest; [exact Ht | congruence].
  - intros t Ht. now apply Hrest.
Qed.

Lemma expire_step (ev : event) (st : State) :
  toasts_expire st -> toasts_expire (step fmt ev st).
Proof.
  intros Hinv. destruct ev; cbn [step]; try exact Hinv;
    repeat match goal with
           | |- toasts_expire (match ?x with _ => _ end) =>
               destruct x eqn:?; try exact Hinv
           end;
    try (eapply expire_timer; eassumption);
    unfold exec;
    match goal with
    | |- toasts_expire (snd (?m st)) =>
        cut (preserves toasts_expire m); [intros Hp; exact (Hp st Hinv)|]
    end; expire_steps.
Qed.

Lemma reachable_toasts_expire (st : State) : reachable fmt st -> toasts_expire st.
Proof.
  induction 1 as [tok usr | ev st _ IH].
  - assert (Hp : preserves toasts_expire boot) by expire_steps.
    apply Hp. intros t Ht. cbn in Ht. now apply elem_of_nil in Ht.
  - now apply expire_step.
Qed.

(** X16: in every state the client can be in, each toast on the page has
    a timeout of 3000 ms pending whose firing takes that toast off the
    page: no event drops the timeout of a toast and leaves the toast. *)
Theorem every_toast_expires (st : State) (t : Toast) :
  reachable fmt st -> t ∈ toasts st ->
  exists i, timers st !! i = Some (3000%Z, CbRemoveToast (toast_id t)) /\
            t ∉ toasts (step fmt (TimerFired i) st).
Proof.
  intros Hreach Ht.
  pose proof (reachable_toasts_expire st Hreach t Ht) as Hin.
  apply list_elem_of_lookup in Hin as [i Hi]. exists i. split; [exact Hi|].
  cbn [step]. rewrite Hi. unfold exec, bind, modify. cbn [fst snd run_callback].
  rewrite removeToast_toasts. now intros [_ Hid].
Qed.

(** ** Opening a chat *)

Lemma openChat_run (chatId type name : json) (st : State) :
  let chat := mkActiveChat chatId type in
  let s1 := set_messages_area [] (set_title (dom_text name)
              (set_chat_shown true (set_activeChat (Some chat) st))) in
  snd (openChat chatId type name st) =
    match privateChats st with
    | JArr chats =>
        let s2 := set_chat_list (map (chat_item (Some chat)) (before_unnamed chats)) s1 in
        if forallb chat_renders chats then
          set_trace
            (trace st ++
               match open_socket st with
               | Some sid => [WsSend sid (join_frame chat)]
               | None => []
               end ++
               [Fetch (apiCall_request (history_endpoint chat) "GET" JNull false st)])
            s2
        else s2
    | _ => set_chat_list [] s1
    end.
Proof.
  intros chat s1. unfold openChat.
  unfold bind at 1, modify at 1. cbn [fst snd].
  unfold bind at 1, modify at 1. cbn [fst snd].
  unfold bind at 1, modify at 1. cbn [fst snd].
  unfold bind at 1, modify at 1. cbn [fst snd].
  unfold bind at 1. rewrite renderChatList_run. fold chat. fold s1.
  replace (privateChats s1) with (privateChats st) by reflexivity.
  replace (activeChat s1) with (Some chat) by reflexivity.
  destruct (privateChats st) as [| | | | |chats|]; try reflexivity.
  destruct (forallb chat_renders chats); [|reflexivity].
  set (s2 := set_chat_list _ s1).
  unfold bind at 1, gets at 1. cbn [fst snd].
  replace (open_socket s2) with (open_socket st) by reflexivity.
  unfold join_frame, history_endpoint, apiCall_send, ws_send, emit, bind, gets, modify, ret.
  cbn [chat_id chat_type chat].
  destruct (open_socket st); cbn [fst snd]; cbn [trace set_trace s2 s1];
    rewrite <- ?app_assoc; reflexivity.
Qed.

(** X17: [openChat] makes the chat the active one, shows the chat with
    its title, empties the message area and rebuilds the chat list with
    the items of that id marked, whatever follows; it then sends the join
    frame, when the socket is open, and requests the history, but only
    when the whole chat list could be rendered: when a chat without a
    participant name stops the rendering, or the chats are not an array,
    the room is not joined and the history is not requested. *)
Theorem openChat_outcomes (chatId type name : json) (st : State) :
  let chat := mkActiveChat chatId type in
  let st' := exec (openChat chatId type name) st in
  activeChat st' = Some chat /\ messages_area st' = [] /\
  title st' = dom_text name /\ chat_shown st' = true /\
  chat_list st' =
    match privateChats st with
    | JArr chats => map (chat_item (Some chat)) (before_unnamed chats)
    | _ => []
    end /\
  trace st' =
    trace st ++
      (if chat_list_renders st then
         match open_socket st with
         | Some sid => [WsSend sid (join_frame chat)]
         | None => []
         end ++
         [Fetch (apiCall_request (history_endpoint chat) "GET" JNull false st)]
       else []).
Proof.
  intros chat st'. subst st'. unfold exec. rewrite openChat_run. fold chat.
  unfold chat_list_renders.
  destruct (privateChats st) as [| | | | |chats|];
    try (cbn; rewrite app_nil_r; repeat split).
  destruct (forallb chat_renders chats); cbn; rewrite ?app_nil_r; repeat split.
Qed.

(** ** Sending without a user *)

(** X18: [sendMessage] throws only at [state.user.id], that is, with an
    active chat, a message and an open socket but no user object (as after
    a login whose response had no [user]); the message is then neither
    shown nor sent, no toast tells so and the input keeps its text.  In
    every other case it returns. *)
Theorem sendMessage_without_user (now : string) (st : State) :
  (forall chat sid,
      activeChat st = Some chat -> trim (message_input st) <> "" ->
      open_socket st = Some sid -> is_nullish (user st) = true ->
      sendMessage fmt now st = (Throw TypeError, st)) /\
  (fst (sendMessage fmt now st) <> Ok tt ->
   activeChat st <> None /\ trim (message_input st) <> "" /\
   open_socket st <> None /\ is_nullish (user st) = true).
Proof.
  split.
  - intros chat sid Hchat Hcontent Hopen Huser.
    unfold sendMessage, bind, gets, lift. rewrite Hchat.
    destruct (trim (message_input st)) as [|c rest]; [congruence|].
    cbn [truthy negb]. rewrite Hopen. cbn [fst snd].
    destruct (user st); try discriminate Huser; reflexivity.
  - unfold sendMessage, bind at 1, gets at 1. cbn [fst snd].
    destruct (activeChat st) as [chat|]; [|now intros []].
    unfold bind at 1, gets at 1. cbn [fst snd].
    destruct (trim (message_input st)) as [|c rest]; [now intros []|].
    cbn [truthy negb]. unfold bind at 1, gets at 1. cbn [fst snd].
    destruct (open_socket st) as [sid|]; [|now intros []].
    intros Hthrow. repeat split; try easy.
    destruct (is_nullish (user st)) eqn:Huser; [reflexivity|].
    destruct Hthrow. unfold bind, gets, lift, appendMessage, ws_send, emit, modify.
    cbn [fst snd]. rewrite !(get_prop _ _ Huser). reflexivity.
Qed.

(** ** The contact form *)

(** X19: when the request of the contact form settles, a success shows
    the success toast and schedules, 2000 ms later, the return to the
    authentication view; a failure shows the message of the error and
    schedules no navigation.  Either way the view stays as it is in that
    turn and nothing is sent or requested. *)
Theorem contact_outcomes (r : FetchOutcome) (st : State) :
  let st' := step fmt (ContactSettled r) st in
  (forall res, apiCall_response r = Ok res ->
     toasts st' =
       toasts st ++ [mkToast (next_toast st) "success" (Text "Message sent successfully!")] /\
     timers st' =
       timers st ++ [(3000%Z, CbRemoveToast (next_toast st));
                     (2000%Z, CbNavigate "view-auth")]) /\
  (forall e, apiCall_response r = Throw e ->
     toasts st' = toasts st ++ [mkToast (next_toast st) "error" (MessageOf e)] /\
     timers st' = timers st ++ [(3000%Z, CbRemoveToast (next_toast st))]) /\
  view st' = view st /\ outbound (trace st') = outbound (trace st) /\
  token st' = token st.
Proof.
  cbn zeta. cbn [step]. unfold exec, handleContactSubmit_resume, try_catch, bind at 1, lift.
  destruct (apiCall_response r) as [res|e]; cbn [fst snd].
  - split; [|split; [discriminate|]].
    + intros _ _. cbn. now rewrite <- app_assoc.
    + cbn. repeat split. unfold outbound. rewrite !List.filter_app. cbn.
      now rewrite !app_nil_r.
  - split; [discriminate|split].
    + intros e' [= <-]. cbn. repeat split.
    + cbn. repeat split. unfold outbound. rewrite !List.filter_app. cbn.
      now rewrite !app_nil_r.
Qed.

End Handlers.

(** ** Sessions for the handlers

    Ann's session again: the handlers above at its states. *)

(** Ann has the private chat 1 open; her own message comes back as a
    frame of the group 1 and is appended all the same. *)
Lemma active_chat_type_not_consulted_session :
  messages_area
    (exec (handleWsMessage Session.hh_mm
             (message_event (mkActiveChat (JNum 1) (JStr "group")) Session.own_message))
       Session.chatting)
  = messages_area Session.chatting ++
      [message_div Session.hh_mm
         (strict_eq (prop "sender_id" Session.own_message) (JNum 7)) Session.own_message].
Proof.
  apply (proj2 (active_chat_type_not_consulted Session.hh_mm Session.chatting (JNum 1))).
  - reflexivity.
  - reflexivity.
  - reflexivity.
  - reflexivity.
Defined.

(** A message of chat 2 while chat 1 is open is announced by a toast. *)
Lemma message_for_another_chat_session :
  let data := message_event (mkActiveChat (JNum 2) (JStr "private")) Session.own_message in
  exec (handleWsMessage Session.hh_mm data) Session.chatting
  = exec (showToast
            (Text ("New message from " +:+
                   toString (prop "sender_name" (prop "message" data))))
            "success") Session.chatting.
Proof.
  intros data.
  assert (Hother : match activeChat Session.chatting with
                   | Some chat => isTargetChat (chat_id chat) data = false
                   | None => True
                   end) by (vm_compute; reflexivity).
  pose proof (message_for_another_chat Session.hh_mm data Session.chatting eq_refl Hother)
    as H.
  cbv zeta in H. destruct H as (_ & Htoast & _). apply Htoast. reflexivity.
Defined.

(** An error frame is shown, a frame of an unknown type is dropped. *)
Lemma other_frames_session :
  let refused := JObj [("type", JStr "error"); ("message", JStr "Room is full")] in
  let pong := JObj [("type", JStr "pong")] in
  exec (handleWsMessage Session.hh_mm refused) Session.chatting
  = exec (showToast (Text (dom_text (prop "message" refused))) "error") Session.chatting /\
  exec (handleWsMessage Session.hh_mm pong) Session.chatting = Session.chatting.
Proof.
  intros refused pong. split.
  - apply (proj1 (other_frames Session.hh_mm refused Session.chatting)). reflexivity.
  - apply (proj2 (other_frames Session.hh_mm pong Session.chatting)).
    intros type H. simpl in H. injection H as <-. split; reflexivity.
Defined.

(** The history of chat 1 holds Ann's message. *)
Lemma history_is_appended_session :
  let res := JObj [("messages", JArr [Session.own_message])] in
  messages_area
    (exec (openChat_resume Session.hh_mm (Response true (Some res))) Session.chatting)
  = messages_area Session.chatting ++
      map (fun m => message_div Session.hh_mm
                      (strict_eq (prop "sender_id" m) (JNum 7)) m)
        (before_nullish [Session.own_message]).
Proof.
  intros res.
  exact (proj1 (history_is_appended Session.hh_mm (Response true (Some res)) res (JNum 7)
                  [Session.own_message] Session.chatting eq_refl eq_refl eq_refl)).
Defined.

(** The request of the history fails: one line on the console. *)
Lemma history_failure_session :
  exec (openChat_resume Session.hh_mm FetchFailed) Session.chatting
  = set_trace (trace Session.chatting ++ [ConsoleError "Failed to load messages"])
      Session.chatting.
Proof.
  apply (proj1 (history_failure Session.hh_mm FetchFailed Session.chatting)).
  exists NetworkError. reflexivity.
Defined.

(** Ann's one chat has a participant name: the list renders. *)
Lemma renderChatList_up_to_first_unnamed_session :
  fst (renderChatList Session.chatting) = Ok tt.
Proof.
  destruct (proj1 (renderChatList_up_to_first_unnamed Session.chatting)
              [JObj [("id", JNum 1); ("other_participant", JStr "bob")]] eq_refl)
    as (_ & Hiff & _).
  apply Hiff. reflexivity.
Defined.

(** The chats of Ann arrive. *)
Lemma loadChats_outcomes_session :
  privateChats (exec (loadChats_resume Session.chats) Session.start)
  = JArr [JObj [("id", JNum 1); ("other_participant", JStr "bob")]].
Proof.
  pose proof (loadChats_outcomes Session.chats Session.start) as H.
  cbv zeta in H. destruct H as (_ & Hchats & _).
  exact (proj1 (Hchats (JObj [("chats",
                               JArr [JObj [("id", JNum 1);
                                           ("other_participant", JStr "bob")]])])
                  eq_refl eq_refl)).
Defined.

(** Ann's stored user has a name: the script asks for her chats. *)
Lemma chats_requested_iff_user_named_session :
  fst (loadInitialData Session.start) = Ok tt.
Proof.
  pose proof (chats_requested_iff_user_named Session.start) as H.
  cbv zeta in H. destruct H as (_ & Hiff & _). apply Hiff. reflexivity.
Defined.

(** Ann has logged out and mistypes her password. *)
Lemma failed_login_changes_nothing_session :
  let st := step Session.hh_mm ClickLogout Session.chatting in
  let r := Response false (Some (JObj [("detail", JStr "Incorrect password")])) in
  let st' := step Session.hh_mm (LoginSettled "Login successful" r) st in
  token st' = JNull /\ view st' = "view-auth" /\
  length (toasts st') = S (length (toasts st)).
Proof.
  intros st r st'.
  assert (Hfail : forall res, apiCall_response r = Ok res -> is_nullish res = true)
    by (intros res H; simpl in H; discriminate H).
  pose proof (failed_login_changes_nothing Session.hh_mm "Login successful" r st Hfail) as H.
  cbv zeta in H. destruct H as (_ & Ht & _ & _ & _ & _ & _ & Hv & _ & Hn).
  fold st' in Ht, Hv, Hn. rewrite Ht, Hv. split; [reflexivity|]. split; [reflexivity | exact Hn].
Defined.

(** She logs in again: a second socket is constructed. *)
Lemma successful_login_session :
  let st := step Session.hh_mm ClickLogout Session.chatting in
  let res := JObj [("access_token", JStr "jwt2"); ("user", Session.ann)] in
  let st' := step Session.hh_mm (LoginSettled "Login successful" (Response true (Some res))) st in
  token st' = JStr "jwt2" /\ view st' = "view-app" /\ socket st' = Some 1.
Proof.
  intros st res st'.
  pose proof (successful_login Session.hh_mm "Login successful" (Response true (Some res))
                res st eq_refl eq_refl) as H.
  cbv zeta in H. destruct H as (Ht & _ & _ & _ & Hv & _ & _ & Hsock).
  split; [exact Ht|]. split; [exact Hv|]. exact (proj1 (Hsock eq_refl)).
Defined.

(** The chat Ann had open is still the active one after her logout. *)
Lemma session_change_keeps_chat_session :
  activeChat (step Session.hh_mm ClickLogout Session.chatting)
  = activeChat Session.chatting.
Proof.
  exact (proj1 (session_change_keeps_chat Session.hh_mm ClickLogout Session.chatting
                  eq_refl)).
Defined.

(** After the reconnect the first socket of Ann is a stale one. *)
Lemma stale_socket_is_silent_session :
  step Session.hh_mm (WsOpen 0) Session.reconnecting = Session.reconnecting /\
  trace (step Session.hh_mm (WsClosed 0) Session.reconnecting)
  = trace Session.reconnecting.
Proof.
  assert (Hreach : reachable Session.hh_mm Session.reconnecting)
    by apply (reachable_run Session.hh_mm [TimerFired 0]), offline_reachable.
  assert (Hstale : socket Session.reconnecting <> Some 0)
    by (vm_compute; discriminate).
  pose proof (stale_socket_is_silent Session.hh_mm Session.reconnecting 0 Hreach Hstale)
    as H.
  cbv zeta in H. destruct H as (Hopen & _ & Htrace & _).
  split; [exact Hopen | exact Htrace].
Defined.

(** After Ann's logout her socket is closing and cannot call back. *)
Lemma at_most_one_live_socket_session :
  let st := step Session.hh_mm ClickLogout Session.chatting in
  let w := mkWebSocket CLOSING false "jwt" in
  socket st = None /\ sockets st !! 0 = Some w /\ live w = false.
Proof.
  intros st w.
  split; [reflexivity|]. split; [reflexivity|].
  apply (proj2 (at_most_one_live_socket Session.hh_mm st
                  (reachable_step Session.hh_mm ClickLogout Session.chatting
                     chatting_reachable))
           eq_refl 0 w).
  reflexivity.
Defined.

(** The toast of a submit while offline goes when its timeout fires. *)
Lemma every_toast_expires_session :
  let st := step Session.hh_mm (Submit "now") Session.offline in
  let t := mkToast 0 "error" (Text "Connection lost") in
  exists i, timers st !! i = Some (3000%Z, CbRemoveToast (toast_id t)) /\
            t ∉ toasts (step Session.hh_mm (TimerFired i) st).
Proof.
  intros st t.
  apply (every_toast_expires Session.hh_mm st t).
  - apply reachable_step, offline_reachable.
  - change (t ∈ [t]). apply list_elem_of_singleton. reflexivity.
Defined.

(** A stored token without a stored user: the chat opens, the socket is
    open, and a submit is lost without a word. *)
Lemma sendMessage_without_user_session :
  let st := run Session.hh_mm [ChatsSettled Session.chats; WsOpen 0; ClickChat 0;
                               TypeInput " hi "]
              (exec boot (initial (Some "jwt") None)) in
  sendMessage Session.hh_mm "now" st = (Throw TypeError, st).
Proof.
  intros st.
  apply (proj1 (sendMessage_without_user Session.hh_mm "now" st)
           (mkActiveChat (JNum 1) (JStr "private")) 0).
  - reflexivity.
  - vm_compute. discriminate.
  - reflexivity.
  - reflexivity.
Defined.

(** The contact form of a visitor whose request does not get through. *)
Lemma contact_outcomes_session :
  let st := exec boot (initial None None) in
  let st' := step Session.hh_mm (ContactSettled FetchFailed) st in
  toasts st' = toasts st ++ [mkToast (next_toast st) "error" (MessageOf NetworkError)] /\
  timers st' = timers st ++ [(3000%Z, CbRemoveToast (next_toast st))].
Proof.
  intros st st'.
  pose proof (contact_outcomes Session.hh_mm FetchFailed st) as H.
  cbv zeta in H. destruct H as (_ & Hfail & _).
  exact (Hfail NetworkError eq_refl).
Defined.
